(** * DocumentListMergeCommand

    A shallow embedding of the list-merge command of the document list
    feature (module list/documentlist/documentlistmergecommand) and the
    properties its specification states about it.

    The command is a class over the host editor: it reads the document
    selection and the blocks around it, and changes the document only
    through host calls made inside one [model.change] block.  The methods
    are embedded in a state-and-exception monad over the document model,
    the command object [this] and a trace of the host calls and events. *)

From stdpp Require Import base strings gmap list sorting.
From Stdlib Require Import ZArith Lia.

(** ** The host's document model, as far as the command reads it

    The engine's classes (element, position, selection, model) are not part
    of the sources.  The specification lists what the command consumes of
    them: blocks carrying a list-indent level and a list-item identifier,
    sibling lookups that may find nothing, and a selection that is a
    collapsed point or a range with a first and a last position. *)

(** A reference to a model element (the identity of a JS object). *)
Definition Ref := nat.

(** Modelled from the spec: the engine's element class is absent from the
    sources.  A block has a name, the two list attributes the command reads
    through [getAttribute] (an absent attribute reads as [undefined], here
    [None]) and its text content. *)
Record Element := mkElement {
  name : string;
  listIndent : option Z;
  listItemId : option string;
  text : string }.

(** Modelled from the spec: [element.isEmpty], the block has no content. *)
Definition isEmpty (e : Element) : bool := bool_decide (text e = EmptyString).

(** Modelled from the spec: [element.maxOffset], the offset that ['end']
    stands for. *)
Definition maxOffset (e : Element) : nat := String.length (text e).

(** Modelled from the spec: a position resolves to its parent block, and a
    selection has a first and a last position. *)
Record Position := mkPosition { parent : Ref; offset : nat }.

Record Selection := mkSelection {
  getFirstPosition : Position;
  getLastPosition : Position }.

#[global] Instance Position_eq_dec : EqDecision Position.
Proof. solve_decision. Defined.

#[global] Instance Selection_eq_dec : EqDecision Selection.
Proof. solve_decision. Defined.

(** Modelled from the spec: [selection.isCollapsed], the selection is a
    collapsed point, its first and last position coincide. *)
Definition isCollapsed (sel : Selection) : bool :=
  bool_decide (getFirstPosition sel = getLastPosition sel).

(** Modelled from the spec: the host's single document tree.  It is the
    store of elements, the blocks of the root in document order, and the
    document selection. *)
Record Model := mkModel {
  heap : gmap Ref Element;
  children : list Ref;
  selection : Selection }.

Definition getListIndent (m : Model) (e : Ref) : option Z :=
  heap m !! e ≫= listIndent.

Definition getListItemId (m : Model) (e : Ref) : option string :=
  heap m !! e ≫= listItemId.

Definition elementIsEmpty (m : Model) (e : Ref) : bool :=
  from_option isEmpty true (heap m !! e).

Definition elementMaxOffset (m : Model) (e : Ref) : nat :=
  from_option maxOffset 0%nat (heap m !! e).

(** Modelled from the spec: [element.index], the position among the root's
    children. *)
Definition index (m : Model) (e : Ref) : option nat :=
  fst <$> list_find (λ x, x = e) (children m).

(** Modelled from the spec: [element.previousSibling] and
    [element.nextSibling]; the sibling may be absent, [None] is [null]. *)
Definition previousSibling (m : Model) (e : Ref) : option Ref :=
  i ← index m e;
  match i with
  | O => None
  | S j => children m !! j
  end.

Definition nextSibling (m : Model) (e : Ref) : option Ref :=
  i ← index m e; children m !! S i.

(** A JS number that may be [NaN] (arithmetic on [undefined]). *)
Inductive JsNum := Num (z : Z) | NaN.

#[global] Instance JsNum_eq_dec : EqDecision JsNum.
Proof. solve_decision. Defined.

(** ** The command object, events and the monad *)

Inductive Direction := backward | forward.

#[global] Instance Direction_eq_dec : EqDecision Direction.
Proof. solve_decision. Defined.

(** The fields of [this]: the private [_direction] and the observable
    [isEnabled] of the command base class. *)
Record Command := mkCommand {
  _direction : Direction;
  isEnabled : bool }.

(** The selection handed to [model.deleteContent]: the live document
    selection itself, or a selection created by the writer. *)
Inductive SelectionArg :=
| TheDocumentSelection
| OwnSelection (sel : Selection).

(** What the command does to its host, in program order. *)
Inductive Event :=
| EnterChange
| LeaveChange
| CallIndentBlocks (blocks : list Ref) (indentBy : JsNum) (expand : bool)
| CallDeleteContent (sel : SelectionArg) (doNotResetEntireContent : bool)
| CallMergeListItemBefore (listBlock parentBlock : Ref)
| Fire (eventName : string) (payload : list Ref).

#[global] Instance SelectionArg_eq_dec : EqDecision SelectionArg.
Proof. solve_decision. Defined.

#[global] Instance Event_eq_dec : EqDecision Event.
Proof. solve_decision. Defined.

(** The state the methods run in: the document, the command object, the
    array [changedBlocks] of the running [execute] and the trace. *)
Record State := mkState {
  model : Model;
  this : Command;
  changedBlocks : list Ref;
  trace : list Event }.

(** Reading a property of [null] raises a [TypeError]. *)
Inductive Error := TypeError.

Inductive outcome (A : Type) :=
| Ret (a : A)
| Throw (e : Error).
Arguments Ret {A} a.
Arguments Throw {A} e.

Definition M (A : Type) : Type := State → outcome A * State.

Definition ret {A} (a : A) : M A := λ s, (Ret a, s).

Definition throw {A} (e : Error) : M A := λ s, (Throw e, s).

Definition bind {A B} (c : M A) (k : A → M B) : M B := λ s,
  match c s with
  | (Ret a, s') => k a s'
  | (Throw e, s') => (Throw e, s')
  end.

Notation "x <- c ;; k" := (bind c (λ x, k))
  (at level 100, c at next level, right associativity).
Notation "c ;;; k" := (bind c (λ _, k))
  (at level 100, right associativity).

Definition getModel : M Model := λ s, (Ret (model s), s).

Definition setModel (m : Model) : M unit := λ s,
  (Ret tt, mkState m (this s) (changedBlocks s) (trace s)).

Definition getThis : M Command := λ s, (Ret (this s), s).

Definition setIsEnabled (b : bool) : M unit := λ s,
  (Ret tt, mkState (model s) (mkCommand (_direction (this s)) b)
                   (changedBlocks s) (trace s)).

Definition emit (e : Event) : M unit := λ s,
  (Ret tt, mkState (model s) (this s) (changedBlocks s) (trace s ++ [e])).

(** [const changedBlocks = []] and [changedBlocks.push( ...blocks )]. *)
Definition newChangedBlocks : M unit := λ s,
  (Ret tt, mkState (model s) (this s) [] (trace s)).

Definition push (blocks : list Ref) : M unit := λ s,
  (Ret tt, mkState (model s) (this s) (changedBlocks s ++ blocks) (trace s)).

Definition getChangedBlocks : M (list Ref) := λ s, (Ret (changedBlocks s), s).

(** Dereferencing a possibly-null element. *)
Definition deref (e : option Ref) : M Ref :=
  match e with
  | Some r => ret r
  | None => throw TypeError
  end.

(** ** Helpers of utils/model that the specification describes *)

(** Modelled from the spec: [isListItemBlock] of utils/model is absent from
    the sources.  The glossary calls a list block a block carrying a
    list-item identifier, and the enablement check asks whether the
    boundary block exists at all: an absent block is not a list item. *)
Definition isListItemBlock (m : Model) (node : option Ref) : bool :=
  match node with
  | Some e => bool_decide (is_Some (getListItemId m e))
  | None => false
  end.

(** Modelled from the spec: [isSingleListItem] of utils/model is absent from
    the sources.  A list item is the set of list blocks sharing one
    list-item identifier; the blocks are a single list item when the first
    carries an identifier and every block carries that same identifier. *)
Definition isSingleListItem (m : Model) (listBlocks : list Ref) : bool :=
  match listBlocks with
  | [] => false
  | b :: _ =>
      match getListItemId m b with
      | None => false
      | Some firstItemId =>
          forallb (λ item, bool_decide (getListItemId m item = Some firstItemId))
                  listBlocks
      end
  end.

(** [new Set( array )]: the elements in insertion order, each kept once. *)
Definition Set_add (s : list Ref) (x : Ref) : list Ref :=
  if bool_decide (x ∈ s) then s else s ++ [x].

Definition newSet (blocks : list Ref) : list Ref := foldl Set_add [] blocks.

(** The sort key of a block: its index under the root; a block that is not
    a child of the root has no place in the document and sorts after the
    blocks that are. *)
Definition docKey (m : Model) (e : Ref) : nat :=
  default (length (children m)) (index m e).

(** Document order, made total: blocks at one key are told apart by their
    reference, so that the sorted array does not depend on the order in
    which the blocks came. *)
Definition docOrder (m : Model) (a b : Ref) : Prop :=
  docKey m a < docKey m b ∨ (docKey m a = docKey m b ∧ a ≤ b).

#[global] Instance docOrder_dec m a b : Decision (docOrder m a b).
Proof. unfold docOrder. apply _. Defined.

(** Modelled from the spec: [sortBlocks] of utils/model is absent from the
    sources.  It turns the set of blocks into an array with the same blocks
    sorted into document order, whatever the order of the set. *)
Definition sortBlocks (m : Model) (blocks : list Ref) : list Ref :=
  merge_sort (docOrder m) blocks.

(** Modelled from the spec: [model.change] of the host engine and the
    command base class are absent from the sources.  The host runs the
    callback as one change block.  When the callback has returned the block
    closes: if the host finds the document changed it notifies its
    listeners, among them the refresh of the command, which the base class
    registered when the command was constructed (the host-driven refresh
    cycle of the specification).  A raise of the callback or of the refresh
    leaves [model.change] at that point.  The trace records where the block
    opens and where it has closed. *)
Definition model_change (hasChanged : Model → Model → bool) (onChange : M unit)
    (callback : M unit) : M unit :=
  before <- getModel;;
  emit EnterChange;;;
  callback;;;
  after <- getModel;;
  (if hasChanged before after then onChange else ret tt);;;
  emit LeaveChange.

(** Modelled from the spec: the writer's constructors of positions, ranges
    and selections, as [execute] uses them. *)
Inductive OffsetArg := AtOffset (n : nat) | AtEnd.

Definition createPositionAt (m : Model) (e : Ref) (o : OffsetArg) : Position :=
  match o with
  | AtOffset n => mkPosition e n
  | AtEnd => mkPosition e (elementMaxOffset m e)
  end.

Definition createRange (start end_ : Position) : Selection :=
  mkSelection start end_.

Definition createSelection (range : Selection) : Selection := range.

(** ** The host interface the command calls without defining *)

(** The options [ListWalker.first] is called with. *)
Record WalkerOptions := mkWalkerOptions {
  sameIndent : bool;
  lowerIndent : bool }.

(** The remaining imports of the command: the schema, the list walker, the
    list utilities that change the document, and [model.deleteContent].
    Their code is not part of the sources and the specification leaves
    their algorithms to the host, so the command is verified against every
    implementation of this interface.  A mutating call returns the model
    after the call next to its JS result. *)
Class Host := {
  (** [model.schema.isObject( element )] *)
  schema_isObject : Model → Ref → bool;
  (** [model.schema.isObject( null )]: what the schema does when it is
      handed an absent sibling. *)
  schema_isObject_null : outcome bool;
  isFirstBlockOfListItem : Model → Ref → bool;
  (** [ListWalker.first( element, options )], [None] when the walk finds
      no block. *)
  ListWalker_first : Model → Ref → WalkerOptions → option Ref;
  getNestedListBlocks : Model → Ref → list Ref;
  (** [indentBlocks( blocks, writer, { indentBy, expand } )] *)
  indentBlocks : Model → list Ref → JsNum → bool → Model * list Ref;
  (** [mergeListItemBefore( listBlock, parentBlock, writer )] *)
  mergeListItemBefore : Model → Ref → Ref → Model * list Ref;
  (** [model.deleteContent( sel, { doNotResetEntireContent } )]: the model
      after the deletion and, for a selection of the caller's own, that
      selection after the call. *)
  deleteContent : Model → SelectionArg → bool → Model * Selection;
  (** Whether, at the close of a change block, the host finds the document
      (its content or its selection) changed since the block opened, and
      so notifies the listeners of the document. *)
  hasDocumentChanged : Model → Model → bool }.

(** JS operators on the indent values read by [execute]: [firstIndent] is a
    number, [lastIndent] may be [undefined]. *)
Definition js_or_zero (v : option Z) : Z := default 0%Z v.

Definition js_neq (a : Z) (b : option Z) : bool := bool_decide (b ≠ Some a).

Definition js_sub (a : Z) (b : option Z) : JsNum :=
  match b with
  | Some l => Num (a - l)
  | None => NaN
  end.

Definition js_lt (a : Z) (b : option Z) : bool :=
  match b with
  | Some l => bool_decide (a < l)%Z
  | None => false
  end.

Record BoundaryElements := mkBoundaryElements {
  firstElement : option Ref;
  lastElement : option Ref }.

(** [constructor( editor, direction )]: [super( editor )] initialises the
    fields of the base class, then [_direction] is written. *)
Definition constructor (super_isEnabled : bool) (direction : Direction) : Command :=
  mkCommand direction super_isEnabled.

Section Command.
Context `{Host}.

(** The host calls of [execute], each applied to the document and recorded
    in the trace. *)
Definition call_indentBlocks (blocks : list Ref) (indentBy : JsNum) (expand : bool)
  : M (list Ref) :=
  m <- getModel;;
  emit (CallIndentBlocks blocks indentBy expand);;;
  setModel (indentBlocks m blocks indentBy expand).1;;;
  ret (indentBlocks m blocks indentBy expand).2.

Definition call_mergeListItemBefore (listBlock parentBlock : Ref) : M (list Ref) :=
  m <- getModel;;
  emit (CallMergeListItemBefore listBlock parentBlock);;;
  setModel (mergeListItemBefore m listBlock parentBlock).1;;;
  ret (mergeListItemBefore m listBlock parentBlock).2.

(** After the call the selection object that was passed is read again: the
    document selection is read from the new model. *)
Definition call_deleteContent (sel : SelectionArg) (doNotResetEntireContent : bool)
  : M Selection :=
  m <- getModel;;
  emit (CallDeleteContent sel doNotResetEntireContent);;;
  setModel (deleteContent m sel doNotResetEntireContent).1;;;
  ret (match sel with
       | TheDocumentSelection =>
           selection (deleteContent m sel doNotResetEntireContent).1
       | OwnSelection _ => (deleteContent m sel doNotResetEntireContent).2
       end).

(** [model.schema.isObject( previousSibling )] with a sibling that may be
    [null]. *)
Definition call_schema_isObject (m : Model) (item : option Ref) : M bool :=
  match item with
  | Some e => ret (schema_isObject m e)
  | None => match schema_isObject_null with
            | Ret b => ret b
            | Throw e => throw e
            end
  end.

(** Lines 189-210. *)
Definition _shouldMergeOnBlocksContentLevel : M bool :=
  m <- getModel;;
  cmd <- getThis;;
  let selection := selection m in
  if negb (isCollapsed selection) || bool_decide (_direction cmd = forward)
  then ret true
  else
    let firstPosition := getFirstPosition selection in
    let positionParent := parent firstPosition in
    let previousSibling := previousSibling m positionParent in
    isObj <- call_schema_isObject m previousSibling;;
    if isObj : bool then ret false
    else
      sibling <- deref previousSibling;;
      if elementIsEmpty m sibling then ret true
      else ret (isSingleListItem m [positionParent; sibling]).

(** Lines 219-253. *)
Definition _getBoundaryElements (selection : Selection)
    (shouldMergeOnBlocksContentLevel : bool) : M BoundaryElements :=
  m <- getModel;;
  cmd <- getThis;;
  if isCollapsed selection then
    let positionParent := parent (getFirstPosition selection) in
    let isFirstBlock := isFirstBlockOfListItem m positionParent in
    if bool_decide (_direction cmd = backward) then
      let lastElement := Some positionParent in
      if isFirstBlock && negb shouldMergeOnBlocksContentLevel then
        ret (mkBoundaryElements
               (ListWalker_first m positionParent (mkWalkerOptions true true))
               lastElement)
      else
        ret (mkBoundaryElements (previousSibling m positionParent) lastElement)
    else
      ret (mkBoundaryElements (Some positionParent) (nextSibling m positionParent))
  else
    ret (mkBoundaryElements (Some (parent (getFirstPosition selection)))
                            (Some (parent (getLastPosition selection)))).

(** Lines 144-157. *)
Definition _checkEnabled : M bool :=
  m <- getModel;;
  let selection := selection m in
  shouldMergeOnBlocksContentLevel <- _shouldMergeOnBlocksContentLevel;;
  be <- _getBoundaryElements selection shouldMergeOnBlocksContentLevel;;
  if shouldMergeOnBlocksContentLevel : bool then
    ret (isListItemBlock m (lastElement be))
  else
    ret (isListItemBlock m (firstElement be)).

(** Lines 51-53. *)
Definition refresh : M unit :=
  enabled <- _checkEnabled;;
  setIsEnabled enabled.

(** [this.fire( name, payload )]. *)
Definition fire (eventName : string) (payload : list Ref) : M unit :=
  emit (Fire eventName payload).

(** Lines 125-136. *)
Definition _fireAfterExecute (changedBlocks : list Ref) : M unit :=
  m <- getModel;;
  fire "afterExecute" (sortBlocks m (newSet changedBlocks)).

(** Lines 74-83 of [execute]: the indent reconciliation. *)
Definition reconcileIndent (lastElement : Ref) (firstIndent : Z)
    (lastIndent : option Z) : M unit :=
  if js_neq firstIndent lastIndent then
    m <- getModel;;
    let nestedLastElementBlocks := getNestedListBlocks m lastElement in
    blocks <- call_indentBlocks (lastElement :: nestedLastElementBlocks)
                (js_sub firstIndent lastIndent) (js_lt firstIndent lastIndent);;
    push blocks
  else ret tt.

(** Lines 85-113 of [execute]: the merge proper.  The document selection is
    a live object, so [selection.isCollapsed] is read from the model as it
    is when the line runs. *)
Definition mergeBlocks (shouldMergeOnBlocksContentLevel : bool)
    (firstElement lastElement : Ref) (lastElementId : option string) : M unit :=
  if shouldMergeOnBlocksContentLevel then
    m <- getModel;;
    let sel :=
      if isCollapsed (selection m) then
        OwnSelection (createSelection (createRange
          (createPositionAt m firstElement AtEnd)
          (createPositionAt m lastElement (AtOffset 0))))
      else TheDocumentSelection in
    selAfter <- call_deleteContent sel (isCollapsed (selection m));;
    let lastElementAfterDelete := parent (getLastPosition selAfter) in
    m' <- getModel;;
    let nextSibling := nextSibling m' lastElementAfterDelete in
    push [lastElementAfterDelete];;;
    match nextSibling with
    | Some sibling =>
        if bool_decide (sibling ≠ lastElement)
           && bool_decide (getListItemId m' sibling = lastElementId)
        then
          blocks <- call_mergeListItemBefore sibling lastElementAfterDelete;;
          push blocks
        else ret tt
    | None => ret tt
    end
  else
    blocks <- call_mergeListItemBefore lastElement firstElement;;
    push blocks.

(** The callback handed to [model.change], lines 66-116. *)
Definition execute_callback : M unit :=
  shouldMergeOnBlocksContentLevel <- _shouldMergeOnBlocksContentLevel;;
  m <- getModel;;
  be <- _getBoundaryElements (selection m) shouldMergeOnBlocksContentLevel;;
  first <- deref (firstElement be);;
  let firstIndent := js_or_zero (getListIndent m first) in
  last <- deref (lastElement be);;
  let lastIndent := getListIndent m last in
  let lastElementId := getListItemId m last in
  reconcileIndent last firstIndent lastIndent;;;
  mergeBlocks shouldMergeOnBlocksContentLevel first last lastElementId;;;
  changed <- getChangedBlocks;;
  _fireAfterExecute changed.

(** Lines 61-117.  The refresh handed to [model.change] is the listener of
    the command itself. *)
Definition execute : M unit :=
  newChangedBlocks;;;
  model_change hasDocumentChanged refresh execute_callback.

(** *** Descriptions of the steps of [execute], used to state its properties *)

(** [n] refresh cycles in a row, with no [execute] in between. *)
Fixpoint refreshes (n : nat) (s : State) : State :=
  match n with
  | O => s
  | S k => refreshes k (refresh s).2
  end.

(** The state in which the callback of [model.change] starts. *)
Definition entered (s : State) : State :=
  mkState (model s) (this s) [] (trace s ++ [EnterChange]).

(** What follows the reading of the boundary blocks: lines 74-115, the rest
    of the callback. *)
Definition completion (should : bool) (first last : Ref) (m : Model) : M unit :=
  reconcileIndent last (js_or_zero (getListIndent m first)) (getListIndent m last);;;
  mergeBlocks should first last (getListItemId m last);;;
  (changed <- getChangedBlocks;; _fireAfterExecute changed).

(** The close of the change block that opened on the document [before]. *)
Definition closeBlock (before : Model) : M unit :=
  after <- getModel;;
  (if hasDocumentChanged before after then refresh else ret tt);;;
  emit LeaveChange.

(** The selection whose content the content-level merge deletes. *)
Definition selectionToDelete (m : Model) (first last : Ref) : SelectionArg :=
  if isCollapsed (selection m) then
    OwnSelection (mkSelection (mkPosition first (elementMaxOffset m first))
                              (mkPosition last 0))
  else TheDocumentSelection.

(** The model after [deleteContent] and the block the deleted selection
    ends in afterwards. *)
Definition modelAfterDelete (m : Model) (first last : Ref) : Model :=
  (deleteContent m (selectionToDelete m first last) (isCollapsed (selection m))).1.

Definition lastElementAfterDelete (m : Model) (first last : Ref) : Ref :=
  parent (getLastPosition
    (match selectionToDelete m first last with
     | TheDocumentSelection => selection (modelAfterDelete m first last)
     | OwnSelection _ =>
         (deleteContent m (selectionToDelete m first last)
            (isCollapsed (selection m))).2
     end)).

(** The block after the merge point that is absorbed, if any: it exists, is
    not the original last block and carries that block's list-item
    identifier. *)
Definition absorbed (m : Model) (first last : Ref) (lastElementId : option string)
  : option Ref :=
  match nextSibling (modelAfterDelete m first last)
                    (lastElementAfterDelete m first last) with
  | Some sibling =>
      if bool_decide (sibling ≠ last)
         && bool_decide (getListItemId (modelAfterDelete m first last) sibling
                         = lastElementId)
      then Some sibling else None
  | None => None
  end.

(** The host calls of the two steps, as events, and the model between the
    steps. *)
Definition indentEvents (m : Model) (last : Ref) (fi : Z) (li : option Z)
  : list Event :=
  if js_neq fi li then
    [CallIndentBlocks (last :: getNestedListBlocks m last) (js_sub fi li)
       (js_lt fi li)]
  else [].

Definition modelAfterIndent (m : Model) (last : Ref) (fi : Z) (li : option Z)
  : Model :=
  if js_neq fi li then
    (indentBlocks m (last :: getNestedListBlocks m last) (js_sub fi li)
       (js_lt fi li)).1
  else m.

Definition mergeEvents (should : bool) (m : Model) (first last : Ref)
    (lastElementId : option string) : list Event :=
  if should then
    CallDeleteContent (selectionToDelete m first last) (isCollapsed (selection m))
    :: match absorbed m first last lastElementId with
       | Some sibling =>
           [CallMergeListItemBefore sibling (lastElementAfterDelete m first last)]
       | None => []
       end
  else [CallMergeListItemBefore last first].

Definition isHostCall (e : Event) : Prop :=
  match e with
  | CallIndentBlocks _ _ _ | CallDeleteContent _ _ | CallMergeListItemBefore _ _ =>
      True
  | _ => False
  end.

(** The effect of a recorded host call on the document. *)
Definition applyCall (m : Model) (e : Event) : Model :=
  match e with
  | CallIndentBlocks blocks indentBy expand =>
      (indentBlocks m blocks indentBy expand).1
  | CallDeleteContent sel doNotResetEntireContent =>
      (deleteContent m sel doNotResetEntireContent).1
  | CallMergeListItemBefore listBlock parentBlock =>
      (mergeListItemBefore m listBlock parentBlock).1
  | _ => m
  end.

(** The blocks a run touches, in the order in which it reports them: the
    blocks [indentBlocks] returned, if it was called; then, for a
    content-level merge, the block the deletion ends in and the blocks
    returned by the merge that absorbs the next block, and for a structural
    merge the blocks [mergeListItemBefore] returned. *)
Definition touchedBlocks (should : bool) (m : Model) (first last : Ref)
  : list Ref :=
  (if js_neq (js_or_zero (getListIndent m first)) (getListIndent m last)
   then (indentBlocks m (last :: getNestedListBlocks m last)
           (js_sub (js_or_zero (getListIndent m first)) (getListIndent m last))
           (js_lt (js_or_zero (getListIndent m first)) (getListIndent m last))).2
   else [])
  ++ (if should then
        lastElementAfterDelete
          (modelAfterIndent m last (js_or_zero (getListIndent m first))
             (getListIndent m last)) first last
        :: match absorbed
                   (modelAfterIndent m last (js_or_zero (getListIndent m first))
                      (getListIndent m last)) first last (getListItemId m last) with
           | Some sibling =>
               (mergeListItemBefore
                  (modelAfterDelete
                     (modelAfterIndent m last (js_or_zero (getListIndent m first))
                        (getListIndent m last)) first last)
                  sibling
                  (lastElementAfterDelete
                     (modelAfterIndent m last (js_or_zero (getListIndent m first))
                        (getListIndent m last)) first last)).2
           | None => []
           end
      else (mergeListItemBefore
              (modelAfterIndent m last (js_or_zero (getListIndent m first))
                 (getListIndent m last)) last first).2).

(** The host calls of a run whose boundary blocks exist, in program order. *)
Definition callEvents (should : bool) (m : Model) (first last : Ref)
  : list Event :=
  indentEvents m last (js_or_zero (getListIndent m first)) (getListIndent m last)
  ++ mergeEvents should
       (modelAfterIndent m last (js_or_zero (getListIndent m first))
          (getListIndent m last))
       first last (getListItemId m last).

(** The state in which the callback ends, the event just fired: the
    document is the result of the host calls, the array holds the touched
    blocks, and the payload is that array as a set, sorted. *)
Definition firedState (s : State) (should : bool) (first last : Ref) : State :=
  mkState
    (foldl applyCall (model s) (callEvents should (model s) first last))
    (this s)
    (touchedBlocks should (model s) first last)
    (trace s ++ EnterChange :: callEvents should (model s) first last
       ++ [Fire "afterExecute"
             (sortBlocks
                (foldl applyCall (model s) (callEvents should (model s) first last))
                (newSet (touchedBlocks should (model s) first last)))]).

(** The operations of the command after its construction. *)
Inductive Operation :=
| OpRefresh
| OpExecute
| OpFireAfterExecute (blocks : list Ref).

Definition perform (op : Operation) : M unit :=
  match op with
  | OpRefresh => refresh
  | OpExecute => execute
  | OpFireAfterExecute blocks => _fireAfterExecute blocks
  end.

Fixpoint performAll (ops : list Operation) (s : State) : State :=
  match ops with
  | [] => s
  | op :: rest => performAll rest (perform op s).2
  end.

End Command.

(** ** A reference host

    One implementation of the host interface, used to run the command on
    concrete documents.  The theorems about the command hold for every
    host; this one supplies the instances at which they are exercised. *)

Definition preceding (m : Model) (e : Ref) : list Ref :=
  from_option (λ i, reverse (take i (children m))) [] (index m e).

Definition following (m : Model) (e : Ref) : list Ref :=
  from_option (λ i, drop (S i) (children m)) [] (index m e).

(** Modelled from the spec: the schema is absent from the sources.  An
    object block is a non-text block; the comment in [execute] names a table
    and a block image. *)
Definition ref_isObject (m : Model) (e : Ref) : bool :=
  from_option (λ el, bool_decide (name el ∈ ["table"; "imageBlock"])) false
              (heap m !! e).

(** Modelled from the spec: [ListWalker] is absent from the sources.  The
    walk goes back over the preceding list blocks, steps over the blocks
    nested deeper than the reference indent and stops at the nearest block
    at the same or a lower indent; it ends without a result at a block that
    is not in a list. *)
Fixpoint walkBack (m : Model) (referenceIndent : Z) (options : WalkerOptions)
    (blocks : list Ref) : option Ref :=
  match blocks with
  | [] => None
  | b :: rest =>
      match getListIndent m b with
      | None => None
      | Some indent =>
          if bool_decide (referenceIndent < indent)%Z
          then walkBack m referenceIndent options rest
          else if bool_decide (indent = referenceIndent)
          then (if sameIndent options then Some b else None)
          else (if lowerIndent options then Some b else None)
      end
  end.

Definition ref_ListWalker_first (m : Model) (e : Ref) (options : WalkerOptions)
  : option Ref :=
  match getListIndent m e with
  | Some referenceIndent => walkBack m referenceIndent options (preceding m e)
  | None => None
  end.

(** Modelled from the spec: [isFirstBlockOfListItem] of utils/model is absent
    from the sources.  A block is the first of its list item when no block
    before it, at its own indent, carries its list-item identifier. *)
Definition ref_isFirstBlockOfListItem (m : Model) (e : Ref) : bool :=
  match ref_ListWalker_first m e (mkWalkerOptions true false) with
  | Some b => negb (bool_decide (getListItemId m b = getListItemId m e))
  | None => true
  end.

(** Modelled from the spec: [getNestedListBlocks] of utils/model is absent
    from the sources.  The nested subtree of a block is the run of list
    blocks after it with a higher indent. *)
Fixpoint takeNested (m : Model) (referenceIndent : Z) (blocks : list Ref)
  : list Ref :=
  match blocks with
  | [] => []
  | b :: rest =>
      match getListIndent m b with
      | Some indent =>
          if bool_decide (referenceIndent < indent)%Z
          then b :: takeNested m referenceIndent rest
          else []
      | None => []
      end
  end.

Definition ref_getNestedListBlocks (m : Model) (e : Ref) : list Ref :=
  match getListIndent m e with
  | Some referenceIndent => takeNested m referenceIndent (following m e)
  | None => []
  end.

Definition setListAttributes (indent : option Z) (id : option string)
    (e : Element) : Element :=
  mkElement (name e) indent id (text e).

Definition updateElement (f : Element → Element) (m : Model) (e : Ref) : Model :=
  mkModel (alter f e (heap m)) (children m) (selection m).

(** Modelled from the spec: the expansion of [indentBlocks].  The subtree
    that follows the given blocks in the same nesting scope: the blocks
    after the last of them that continue the list item of the first, with
    what is nested under them. *)
Fixpoint takeFollowing (m : Model) (referenceIndent : Z) (id : option string)
    (blocks : list Ref) : list Ref :=
  match blocks with
  | [] => []
  | b :: rest =>
      match getListIndent m b with
      | Some indent =>
          if bool_decide (referenceIndent < indent)%Z
             || (bool_decide (indent = referenceIndent)
                 && bool_decide (getListItemId m b = id))
          then b :: takeFollowing m referenceIndent id rest
          else []
      | None => []
      end
  end.

Definition expandBlocks (m : Model) (blocks : list Ref) : list Ref :=
  match blocks with
  | [] => []
  | b :: _ =>
      match getListIndent m b with
      | Some referenceIndent =>
          blocks ++ takeFollowing m referenceIndent (getListItemId m b)
                      (following m (List.last blocks b))
      | None => blocks
      end
  end.

Definition indentOne (indentBy : JsNum) (e : Element) : Element :=
  match indentBy, listIndent e with
  | Num d, Some indent =>
      if bool_decide (indent + d < 0)%Z
      then setListAttributes None None e
      else setListAttributes (Some (indent + d)%Z) (listItemId e) e
  | _, _ => e
  end.

(** Modelled from the spec: [indentBlocks] of utils/model is absent from the
    sources.  Every block handed over is re-indented by [indentBy]; with
    [expand] the subtree that follows in the same nesting scope is
    re-indented with them.  A block whose indent would drop below zero
    leaves the list.  The blocks re-indented are the result. *)
Definition ref_indentBlocks (m : Model) (blocks : list Ref) (indentBy : JsNum)
    (expand : bool) : Model * list Ref :=
  let allBlocks := if expand then expandBlocks m blocks else blocks in
  (foldl (updateElement (indentOne indentBy)) m allBlocks, allBlocks).

(** Modelled from the spec: [mergeListItemBefore] of utils/model is absent
    from the sources.  The structural merge makes the block a continuation
    of the other block's list item: it takes over that block's list indent
    and list-item identifier, its text stays where it is. *)
Definition ref_mergeListItemBefore (m : Model) (listBlock parentBlock : Ref)
  : Model * list Ref :=
  (updateElement (setListAttributes (getListIndent m parentBlock)
                                    (getListItemId m parentBlock)) m listBlock,
   [listBlock]).

Definition takeString (n : nat) (s : string) : string := String.substring 0 n s.

Definition dropString (n : nat) (s : string) : string :=
  String.substring n (String.length s - n) s.

Definition setText (t : string) (e : Element) : Element :=
  mkElement (name e) (listIndent e) (listItemId e) t.

(** Modelled from the spec: [model.deleteContent] of the host engine is
    absent from the sources.  The content between the two positions is
    deleted and the text that remains of the last block is spliced onto the
    first; the blocks after the first up to the last leave the document, and
    the selection collapses at the point of the merge. *)
Definition ref_deleteContent (m : Model) (arg : SelectionArg)
    (doNotResetEntireContent : bool) : Model * Selection :=
  let sel := match arg with
             | TheDocumentSelection => selection m
             | OwnSelection s => s
             end in
  let p := getFirstPosition sel in
  let q := getLastPosition sel in
  let point := mkSelection p p in
  match heap m !! parent p, heap m !! parent q, index m (parent p), index m (parent q) with
  | Some a, Some b, Some i, Some j =>
      let spliced := String.append (takeString (offset p) (text a))
                                   (dropString (offset q) (text b)) in
      (mkModel (alter (setText spliced) (parent p) (heap m))
               (take (S i) (children m) ++ drop (S j) (children m))
               point,
       point)
  | _, _, _, _ => (m, sel)
  end.

#[global] Instance Element_eq_dec : EqDecision Element.
Proof. solve_decision. Defined.

#[global] Instance Model_eq_dec : EqDecision Model.
Proof. solve_decision. Defined.

(** Modelled from the spec: the host's change detection is absent from the
    sources.  The document has changed when it is not what it was when the
    block opened. *)
Definition ref_hasDocumentChanged (before after : Model) : bool :=
  bool_decide (before ≠ after).

#[global] Instance referenceHost : Host := {|
  schema_isObject := ref_isObject;
  schema_isObject_null := Throw TypeError;
  isFirstBlockOfListItem := ref_isFirstBlockOfListItem;
  ListWalker_first := ref_ListWalker_first;
  getNestedListBlocks := ref_getNestedListBlocks;
  indentBlocks := ref_indentBlocks;
  mergeListItemBefore := ref_mergeListItemBefore;
  deleteContent := ref_deleteContent;
  hasDocumentChanged := ref_hasDocumentChanged |}.

(** ** Sample documents *)

Definition paragraph (t : string) : Element := mkElement "paragraph" None None t.

Definition listItem (indent : Z) (id t : string) : Element :=
  mkElement "paragraph" (Some indent) (Some id) t.

Definition document (blocks : list Element) (sel : Selection) : Model :=
  mkModel (list_to_map (zip (seq 0 (length blocks)) blocks))
          (seq 0 (length blocks)) sel.

Definition caret (e : Ref) (o : nat) : Selection :=
  mkSelection (mkPosition e o) (mkPosition e o).

Definition start (d : Direction) (m : Model) : State :=
  mkState m (constructor false d) [] [].

(** Two list items at one indent, the caret at the start of the second. *)
Definition twoItems : Model :=
  document [listItem 0 "a" "foo"; listItem 0 "b" "bar"] (caret 1 0).

(** Two blocks of one list item, the caret at the start of the second. *)
Definition oneItem : Model :=
  document [listItem 0 "a" "foo"; listItem 0 "a" "bar"] (caret 1 0).

(** A block image in a list item, followed by a list item with the caret. *)
Definition afterImage : Model :=
  document [mkElement "imageBlock" (Some 0%Z) (Some "a") ""; listItem 0 "b" "bar"]
           (caret 1 0).

(** An empty list item followed by a list item with the caret. *)
Definition afterEmpty : Model :=
  document [listItem 0 "a" ""; listItem 0 "b" "bar"] (caret 1 0).

(** The caret in the first block of the document. *)
Definition atDocumentStart : Model :=
  document [listItem 0 "a" "foo"; listItem 0 "b" "bar"] (caret 0 0).

(** A plain paragraph followed by a list item with the caret at its start. *)
Definition paragraphThenItem : Model :=
  document [paragraph "foo"; listItem 0 "b" "bar"] (caret 1 0).

(** A nested list, the caret at the start of the nested item "b", which has
    a nested item of its own. *)
Definition nestedItems : Model :=
  document [listItem 0 "a" "foo"; listItem 1 "b" "bar"; listItem 2 "c" "baz"]
           (caret 1 0).

(** The caret at the end of the first item; the second item has two
    blocks. *)
Definition beforeTwoBlockItem : Model :=
  document [listItem 0 "a" "foo"; listItem 0 "b" "bar"; listItem 0 "b" "baz"]
           (caret 0 3).

(** A range from inside the first item to inside the second. *)
Definition rangeOverItems : Model :=
  document [listItem 0 "a" "foo"; listItem 0 "b" "bar"]
           (mkSelection (mkPosition 0 1) (mkPosition 1 2)).

(** An empty item, then an item nested under it with an item nested deeper;
    the caret at the start of the second block. *)
Definition emptyThenNested : Model :=
  document [listItem 0 "a" ""; listItem 1 "b" "bar"; listItem 2 "c" "baz"]
           (caret 1 0).


(** A list item followed by a plain paragraph, the caret at the end of the
    item. *)
Definition itemThenParagraph : Model :=
  document [listItem 0 "a" "foo"; paragraph "bar"] (caret 0 3).

(** A plain paragraph followed by a top-level list item, the caret at the end
    of the paragraph. *)
Definition paragraphBeforeItem : Model :=
  document [paragraph "foo"; listItem 0 "b" "bar"] (caret 0 3).

(** A command that was enabled by an earlier refresh, on a document whose
    caret has since moved into the first block. *)
Definition enabledAtDocumentStart : State :=
  mkState atDocumentStart (mkCommand backward true) [] [].

(** A list whose second item is empty and is followed by an item nested
    under it with an item nested deeper; the caret at the start of the
    third block. *)
Definition nestedAfterEmpty : Model :=
  document [listItem 0 "x" "top"; listItem 0 "a" ""; listItem 1 "b" "bar";
            listItem 2 "c" "baz"]
           (caret 2 0).

(** ** Properties of the command *)

Ltac unfold_monad :=
  unfold bind, ret, throw, deref, getModel, setModel, getThis, setIsEnabled,
    emit, push, newChangedBlocks, getChangedBlocks in *.

(** Membership of an event in an explicit list of events. *)
Ltac decide_elem :=
  repeat match goal with
         | Hin : _ ∈ _ :: _ |- _ => apply elem_of_cons in Hin as [Hin|Hin]
         | Hin : _ ∈ [] |- _ => by apply elem_of_nil in Hin
         end; done.

Section Properties.
Context `{Host}.

(** *** Reading methods leave the state alone and do not look at the trace *)

Lemma shouldMerge_state (s : State) :
  (_shouldMergeOnBlocksContentLevel s).2 = s.
Proof.
  unfold _shouldMergeOnBlocksContentLevel, call_schema_isObject. unfold_monad.
  repeat (simpl; case_match); simplify_eq/=; done.
Qed.

Lemma shouldMerge_frame (s s' : State) :
  model s = model s' → _direction (this s) = _direction (this s') →
  (_shouldMergeOnBlocksContentLevel s).1 = (_shouldMergeOnBlocksContentLevel s').1.
Proof.
  intros Hm Ht.
  unfold _shouldMergeOnBlocksContentLevel, call_schema_isObject. unfold_monad.
  simpl. rewrite Hm, Ht.
  repeat (simpl; case_match); simplify_eq/=; done.
Qed.

Lemma getBoundaryElements_state (sel : Selection) (should : bool) (s : State) :
  (_getBoundaryElements sel should s).2 = s.
Proof.
  unfold _getBoundaryElements. unfold_monad.
  repeat (simpl; case_match); done.
Qed.

Lemma getBoundaryElements_frame (sel : Selection) (should : bool) (s s' : State) :
  model s = model s' → _direction (this s) = _direction (this s') →
  (_getBoundaryElements sel should s).1 = (_getBoundaryElements sel should s').1.
Proof.
  intros Hm Ht. unfold _getBoundaryElements. unfold_monad.
  simpl. rewrite Hm, Ht.
  repeat (simpl; case_match); done.
Qed.

Lemma getBoundaryElements_returns (sel : Selection) (should : bool) (s : State) :
  ∃ be, _getBoundaryElements sel should s = (Ret be, s).
Proof.
  unfold _getBoundaryElements. unfold_monad.
  repeat (simpl; case_match); eauto.
Qed.

Lemma isSingleListItem_pair (m : Model) (a b : Ref) :
  isSingleListItem m [a; b] = true ↔
  ∃ id, getListItemId m a = Some id ∧ getListItemId m b = Some id.
Proof.
  unfold isSingleListItem. destruct (getListItemId m a) as [ida|] eqn:Ha.
  - simpl. rewrite bool_decide_eq_true_2 by done. simpl.
    rewrite andb_true_r, bool_decide_eq_true. split.
    + intros Hb. exists ida. done.
    + intros (id & Hid & Hb). congruence.
  - split; [done|]. intros (id & Hid & _). done.
Qed.

(** C1.  The content-level-merge decision.  A range selection or the
    forward direction gives true.  For a collapsed backward selection whose
    position parent has a preceding sibling the tests run in this order: an
    object sibling gives false; otherwise an empty sibling gives true;
    otherwise the result is true exactly when the position parent and the
    sibling carry one and the same list-item identifier. *)
Theorem shouldMerge_decision (s : State) :
  (isCollapsed (selection (model s)) = false ∨ _direction (this s) = forward →
   _shouldMergeOnBlocksContentLevel s = (Ret true, s))
  ∧ (∀ sibling,
       isCollapsed (selection (model s)) = true →
       _direction (this s) = backward →
       previousSibling (model s) (parent (getFirstPosition (selection (model s))))
         = Some sibling →
       (schema_isObject (model s) sibling = true →
        _shouldMergeOnBlocksContentLevel s = (Ret false, s))
       ∧ (schema_isObject (model s) sibling = false →
          elementIsEmpty (model s) sibling = true →
          _shouldMergeOnBlocksContentLevel s = (Ret true, s))
       ∧ (schema_isObject (model s) sibling = false →
          elementIsEmpty (model s) sibling = false →
          ∃ b, _shouldMergeOnBlocksContentLevel s = (Ret b, s)
               ∧ (b = true ↔
                  ∃ id, getListItemId (model s)
                          (parent (getFirstPosition (selection (model s)))) = Some id
                        ∧ getListItemId (model s) sibling = Some id))).
Proof.
  split.
  - intros Hc. unfold _shouldMergeOnBlocksContentLevel. unfold_monad. simpl.
    destruct Hc as [-> | ->]; simpl; [done|].
    by rewrite orb_true_r.
  - intros sibling Hcol Hdir Hprev.
    unfold _shouldMergeOnBlocksContentLevel, call_schema_isObject. unfold_monad.
    simpl. rewrite Hcol, Hdir, Hprev. simpl.
    split; [|split].
    + by intros ->.
    + by intros -> ->.
    + intros -> ->. eexists; split; [done|]. apply isSingleListItem_pair.
Qed.

(** C2.  Boundary resolution.  A range selection gives the blocks of its
    first and last position.  A collapsed selection gives, in the forward
    direction, the position parent and its next sibling; in the backward
    direction the position parent is the last element, and the first element
    is found by the list walk to the nearest preceding block at the same or
    a lower indent when the parent is the first block of its list item and
    the merge is not content-level, and is the previous sibling otherwise. *)
Theorem getBoundaryElements_resolution (s : State) (sel : Selection)
    (shouldMergeOnBlocksContentLevel : bool) :
  (isCollapsed sel = false →
   _getBoundaryElements sel shouldMergeOnBlocksContentLevel s =
     (Ret (mkBoundaryElements (Some (parent (getFirstPosition sel)))
                              (Some (parent (getLastPosition sel)))), s))
  ∧ (isCollapsed sel = true → _direction (this s) = forward →
     _getBoundaryElements sel shouldMergeOnBlocksContentLevel s =
       (Ret (mkBoundaryElements
               (Some (parent (getFirstPosition sel)))
               (nextSibling (model s) (parent (getFirstPosition sel)))), s))
  ∧ (isCollapsed sel = true → _direction (this s) = backward →
     isFirstBlockOfListItem (model s) (parent (getFirstPosition sel)) = true →
     shouldMergeOnBlocksContentLevel = false →
     _getBoundaryElements sel shouldMergeOnBlocksContentLevel s =
       (Ret (mkBoundaryElements
               (ListWalker_first (model s) (parent (getFirstPosition sel))
                  (mkWalkerOptions true true))
               (Some (parent (getFirstPosition sel)))), s))
  ∧ (isCollapsed sel = true → _direction (this s) = backward →
     isFirstBlockOfListItem (model s) (parent (getFirstPosition sel)) = false
     ∨ shouldMergeOnBlocksContentLevel = true →
     _getBoundaryElements sel shouldMergeOnBlocksContentLevel s =
       (Ret (mkBoundaryElements
               (previousSibling (model s) (parent (getFirstPosition sel)))
               (Some (parent (getFirstPosition sel)))), s)).
Proof.
  unfold _getBoundaryElements. unfold_monad. simpl.
  repeat split.
  - by intros ->.
  - by intros -> ->.
  - by intros -> -> -> ->.
  - intros -> -> [-> | ->]; simpl; [done|].
    by rewrite andb_false_r.
Qed.

(** *** The enablement check *)

Lemma checkEnabled_state (s : State) : (_checkEnabled s).2 = s.
Proof.
  unfold _checkEnabled. unfold_monad. simpl.
  pose proof (shouldMerge_state s) as Hs.
  destruct (_shouldMergeOnBlocksContentLevel s) as [[should|e] s1];
    simpl in Hs; subst s1; [|done].
  destruct (getBoundaryElements_returns (selection (model s)) should s)
    as [be ->].
  by destruct should.
Qed.

Lemma checkEnabled_frame (s s' : State) :
  model s = model s' → _direction (this s) = _direction (this s') →
  (_checkEnabled s).1 = (_checkEnabled s').1.
Proof.
  intros Hm Ht. unfold _checkEnabled. unfold_monad. simpl.
  pose proof (shouldMerge_state s) as Hs.
  pose proof (shouldMerge_state s') as Hs'.
  pose proof (shouldMerge_frame s s' Hm Ht) as Hf.
  destruct (_shouldMergeOnBlocksContentLevel s) as [[should|e] s1],
    (_shouldMergeOnBlocksContentLevel s') as [[should'|e'] s1'];
    simpl in *; simplify_eq; try done.
  pose proof (getBoundaryElements_frame (selection (model s)) should' s s' Hm Ht)
    as Hb.
  rewrite <- Hm.
  destruct (getBoundaryElements_returns (selection (model s)) should' s)
    as [be Hbe].
  destruct (getBoundaryElements_returns (selection (model s)) should' s')
    as [be' Hbe'].
  rewrite Hbe, Hbe' in *. simpl in Hb. simplify_eq.
  by destruct should'.
Qed.

(** C3, as the code has it.  The enablement check never changes the state.
    Whenever the content-level decision returns, the check returns a
    boolean: for a content-level merge it tells whether the last boundary
    block is a list-item block, for a structural merge whether the first
    boundary block is one. *)
Theorem checkEnabled_boundary_block (s : State) :
  (_checkEnabled s).2 = s
  ∧ ∀ should,
      (_shouldMergeOnBlocksContentLevel s).1 = Ret should →
      ∃ be,
        _getBoundaryElements (selection (model s)) should s = (Ret be, s)
        ∧ _checkEnabled s =
            (Ret (if should
                  then isListItemBlock (model s) (lastElement be)
                  else isListItemBlock (model s) (firstElement be)), s).
Proof.
  split; [apply checkEnabled_state|].
  intros should Hshould.
  destruct (getBoundaryElements_returns (selection (model s)) should s)
    as [be Hbe].
  exists be. split; [done|].
  unfold _checkEnabled. unfold_monad. simpl.
  pose proof (shouldMerge_state s) as Hs.
  destruct (_shouldMergeOnBlocksContentLevel s) as [[b|e] s1];
    simpl in *; simplify_eq.
  rewrite Hbe. by destruct should.
Qed.

Lemma refresh_model (s : State) :
  model (refresh s).2 = model s
  ∧ _direction (this (refresh s).2) = _direction (this s)
  ∧ trace (refresh s).2 = trace s
  ∧ changedBlocks (refresh s).2 = changedBlocks s.
Proof.
  unfold refresh. unfold_monad.
  pose proof (checkEnabled_state s) as Hs.
  destruct (_checkEnabled s) as [[b|e] s1]; simpl in *; by subst.
Qed.

Lemma refresh_isEnabled (s : State) (b : bool) :
  (_checkEnabled s).1 = Ret b → isEnabled (this (refresh s).2) = b.
Proof.
  unfold refresh. unfold_monad.
  destruct (_checkEnabled s) as [[b'|e] s1]; simpl; congruence.
Qed.

Lemma refreshes_model (n : nat) (s : State) :
  model (refreshes n s) = model s
  ∧ _direction (this (refreshes n s)) = _direction (this s).
Proof.
  revert s. induction n as [|n IH]; intros s; simpl; [done|].
  destruct (IH (refresh s).2) as [-> ->].
  destruct (refresh_model s) as (? & ? & _). done.
Qed.

(** C7.  Without an [execute] in between, every invocation of the enablement
    check gives the result of the first one: after any number of refresh
    cycles the check answers as it did at the start, and [isEnabled] holds
    that same boolean after each cycle. *)
Theorem checkEnabled_idempotent (s : State) (n : nat) :
  (_checkEnabled (refreshes n s)).1 = (_checkEnabled s).1
  ∧ ∀ b, (_checkEnabled s).1 = Ret b →
         isEnabled (this (refreshes (S n) s)) = b.
Proof.
  destruct (refreshes_model n s) as [Hm Hd].
  split; [by apply checkEnabled_frame|].
  intros b Hb. revert s Hm Hd Hb.
  induction n as [|n IH]; intros s Hm Hd Hb.
  - simpl. by apply refresh_isEnabled.
  - change (refreshes (S (S n)) s) with (refreshes (S n) (refresh s).2).
    destruct (refresh_model s) as (Hm' & Hd' & _).
    destruct (refreshes_model n (refresh s).2) as [Hm2 Hd2].
    apply IH; [done|done|].
    rewrite <- Hb. by apply checkEnabled_frame.
Qed.

(** *** The absent previous sibling *)

(** C10.  For a collapsed backward selection the decision reads the
    previous sibling of the position parent without a null guard.  When the
    sibling exists the decision returns a boolean and no error is raised.
    When it is absent the read of its emptiness always raises: the decision
    can return only if the schema itself answers that an absent item is an
    object, and it raises a TypeError otherwise. *)
Theorem shouldMerge_previousSibling_total (s : State) :
  isCollapsed (selection (model s)) = true →
  _direction (this s) = backward →
  (∀ sibling,
     previousSibling (model s) (parent (getFirstPosition (selection (model s))))
       = Some sibling →
     ∃ b, _shouldMergeOnBlocksContentLevel s = (Ret b, s))
  ∧ (previousSibling (model s) (parent (getFirstPosition (selection (model s))))
       = None →
     _shouldMergeOnBlocksContentLevel s =
       (match schema_isObject_null with
        | Ret true => Ret false
        | Ret false => Throw TypeError
        | Throw e => Throw e
        end, s)).
Proof.
  intros Hcol Hdir.
  unfold _shouldMergeOnBlocksContentLevel, call_schema_isObject. unfold_monad.
  simpl. rewrite Hcol, Hdir. simpl. split.
  - intros sibling ->. simpl.
    destruct (schema_isObject (model s) sibling); [eauto|].
    destruct (elementIsEmpty (model s) sibling); eauto.
  - intros ->. destruct schema_isObject_null as [[|]|]; done.
Qed.

(** *** The steps of [execute] *)

Lemma reconcileIndent_eq (last : Ref) (fi : Z) (li : option Z) (s : State) :
  reconcileIndent last fi li s =
    (Ret tt,
     if js_neq fi li then
       mkState
         (indentBlocks (model s) (last :: getNestedListBlocks (model s) last)
            (js_sub fi li) (js_lt fi li)).1
         (this s)
         (changedBlocks s ++
            (indentBlocks (model s) (last :: getNestedListBlocks (model s) last)
               (js_sub fi li) (js_lt fi li)).2)
         (trace s ++ [CallIndentBlocks (last :: getNestedListBlocks (model s) last)
                        (js_sub fi li) (js_lt fi li)])
     else s).
Proof.
  unfold reconcileIndent, call_indentBlocks. unfold_monad.
  by destruct (js_neq fi li).
Qed.

Lemma mergeBlocks_structural (first last : Ref) (id : option string) (s : State) :
  mergeBlocks false first last id s =
    (Ret tt,
     mkState (mergeListItemBefore (model s) last first).1 (this s)
       (changedBlocks s ++ (mergeListItemBefore (model s) last first).2)
       (trace s ++ [CallMergeListItemBefore last first])).
Proof. unfold mergeBlocks, call_mergeListItemBefore. by unfold_monad. Qed.

Lemma mergeBlocks_content (first last : Ref) (id : option string) (s : State) :
  mergeBlocks true first last id s =
    (Ret tt,
     match absorbed (model s) first last id with
     | Some sibling =>
         mkState
           (mergeListItemBefore (modelAfterDelete (model s) first last) sibling
              (lastElementAfterDelete (model s) first last)).1
           (this s)
           ((changedBlocks s ++ [lastElementAfterDelete (model s) first last]) ++
              (mergeListItemBefore (modelAfterDelete (model s) first last) sibling
                 (lastElementAfterDelete (model s) first last)).2)
           ((trace s ++
               [CallDeleteContent (selectionToDelete (model s) first last)
                  (isCollapsed (selection (model s)))]) ++
              [CallMergeListItemBefore sibling
                 (lastElementAfterDelete (model s) first last)])
     | None =>
         mkState (modelAfterDelete (model s) first last) (this s)
           (changedBlocks s ++ [lastElementAfterDelete (model s) first last])
           (trace s ++
              [CallDeleteContent (selectionToDelete (model s) first last)
                 (isCollapsed (selection (model s)))])
     end).
Proof.
  unfold mergeBlocks, call_mergeListItemBefore, call_deleteContent, absorbed,
    lastElementAfterDelete, modelAfterDelete, selectionToDelete,
    createSelection, createRange, createPositionAt.
  unfold_monad. simpl.
  destruct (isCollapsed (selection (model s))); simpl;
    repeat (case_match; simpl); simplify_eq; done.
Qed.

Lemma fireAfterExecute_eq (blocks : list Ref) (s : State) :
  _fireAfterExecute blocks s =
    (Ret tt,
     mkState (model s) (this s) (changedBlocks s)
       (trace s ++ [Fire "afterExecute" (sortBlocks (model s) (newSet blocks))])).
Proof. unfold _fireAfterExecute, fire. by unfold_monad. Qed.

(** The callback from the reading of the boundary blocks on: it never
    raises, and ends in the state in which the event has been fired. *)
Lemma completion_eq (s : State) (should : bool) (first last : Ref) :
  completion should first last (model s) (entered s)
  = (Ret tt, firedState s should first last).
Proof.
  unfold completion, firedState, callEvents, touchedBlocks, indentEvents,
    modelAfterIndent, mergeEvents.
  set (fi := js_or_zero (getListIndent (model s) first)).
  set (li := getListIndent (model s) last).
  set (id := getListItemId (model s) last).
  unfold bind at 1. rewrite reconcileIndent_eq.
  unfold bind at 1. unfold entered. simpl.
  destruct (js_neq fi li); simpl.
  - destruct should.
    + rewrite mergeBlocks_content. simpl.
      destruct (absorbed _ first last id); simpl;
        unfold bind at 1; unfold getChangedBlocks at 1;
        rewrite fireAfterExecute_eq; simpl; rewrite <- ?app_assoc;
        reflexivity.
    + rewrite mergeBlocks_structural. simpl.
      unfold bind at 1. unfold getChangedBlocks at 1.
      rewrite fireAfterExecute_eq. simpl. rewrite <- ?app_assoc.
      reflexivity.
  - destruct should.
    + rewrite mergeBlocks_content. simpl.
      destruct (absorbed _ first last id); simpl;
        unfold bind at 1; unfold getChangedBlocks at 1;
        rewrite fireAfterExecute_eq; simpl; rewrite <- ?app_assoc;
        reflexivity.
    + rewrite mergeBlocks_structural. simpl.
      unfold bind at 1. unfold getChangedBlocks at 1.
      rewrite fireAfterExecute_eq. simpl. rewrite <- ?app_assoc.
      reflexivity.
Qed.

(** The close of the change block: the refresh runs when the host finds the
    document changed, and the block has closed when it did not raise. *)
Lemma closeBlock_eq (before : Model) (s : State) :
  closeBlock before s =
    if hasDocumentChanged before (model s) then
      match (_checkEnabled s).1 with
      | Ret b =>
          (Ret tt, mkState (model s) (mkCommand (_direction (this s)) b)
                           (changedBlocks s) (trace s ++ [LeaveChange]))
      | Throw e => (Throw e, s)
      end
    else
      (Ret tt, mkState (model s) (this s) (changedBlocks s)
                       (trace s ++ [LeaveChange])).
Proof.
  unfold closeBlock, refresh. unfold_monad. simpl.
  destruct (hasDocumentChanged before (model s)); [|reflexivity].
  pose proof (checkEnabled_state s) as Hs.
  destruct (_checkEnabled s) as [[b|e] s1]; simpl in *; subst s1; reflexivity.
Qed.

Lemma closeBlock_run (before : Model) (s : State) :
  model (closeBlock before s).2 = model s
  ∧ changedBlocks (closeBlock before s).2 = changedBlocks s
  ∧ _direction (this (closeBlock before s).2) = _direction (this s)
  ∧ ∃ tail,
      trace (closeBlock before s).2 = trace s ++ tail
      ∧ (tail = [] ∨ tail = [LeaveChange])
      ∧ ((closeBlock before s).1 = Ret tt → tail = [LeaveChange]).
Proof.
  rewrite closeBlock_eq.
  destruct (hasDocumentChanged before (model s)).
  - destruct (_checkEnabled s).1 as [b|e]; simpl.
    + repeat split; try done. exists [LeaveChange]. auto.
    + repeat split; try done. exists []. rewrite app_nil_r.
      split; [done|]. split; [by left|]. by intros.
  - simpl. repeat split; try done. exists [LeaveChange]. auto.
Qed.

(** [execute] up to the reading of the boundary blocks: it raises before any
    host call when the decision raises or a boundary block is absent;
    otherwise the callback runs to the event and the block closes. *)
Lemma execute_eq (s : State) :
  execute s =
    match (_shouldMergeOnBlocksContentLevel s).1 with
    | Throw e => (Throw e, entered s)
    | Ret should =>
        match (_getBoundaryElements (selection (model s)) should s).1 with
        | Throw e => (Throw e, entered s)
        | Ret be =>
            match firstElement be, lastElement be with
            | Some first, Some last =>
                closeBlock (model s) (firedState s should first last)
            | _, _ => (Throw TypeError, entered s)
            end
        end
    end.
Proof.
  unfold execute, model_change, execute_callback.
  rewrite (shouldMerge_frame s (entered s)) by done.
  pose proof (shouldMerge_state (entered s)) as Hs.
  unfold bind at 1. unfold newChangedBlocks at 1. simpl.
  unfold bind at 1. unfold getModel at 1. simpl.
  unfold bind at 1. unfold emit at 1. simpl.
  fold (entered s).
  unfold bind at 1. unfold bind at 1.
  destruct (_shouldMergeOnBlocksContentLevel (entered s)) as [[should|e] s1];
    simpl in *; subst; [|done].
  unfold bind at 1. unfold getModel at 1. simpl.
  rewrite (getBoundaryElements_frame _ should s (entered s)) by done.
  destruct (getBoundaryElements_returns (selection (model s)) should (entered s))
    as [be Hbe].
  unfold bind at 1. rewrite Hbe. simpl.
  destruct (firstElement be) as [first|]; [|done].
  destruct (lastElement be) as [last|]; [|done].
  simpl. unfold bind at 1. unfold ret at 1.
  unfold bind at 1. unfold ret at 1.
  pose proof (completion_eq s should first last) as Hc.
  unfold completion in Hc. rewrite Hc.
  unfold closeBlock. reflexivity.
Qed.

(** A run of [execute] either raises on entry, with the document untouched,
    or has both boundary blocks and runs to the end. *)
Lemma execute_cases (s : State) :
  (∃ e, execute s = (Throw e, entered s))
  ∨ (∃ should be first last,
       (_shouldMergeOnBlocksContentLevel s).1 = Ret should
       ∧ (_getBoundaryElements (selection (model s)) should s).1 = Ret be
       ∧ firstElement be = Some first
       ∧ lastElement be = Some last).
Proof.
  rewrite execute_eq.
  destruct (_shouldMergeOnBlocksContentLevel s).1 as [should|e] eqn:Hs;
    [|eauto].
  destruct (_getBoundaryElements (selection (model s)) should s).1 as [be|e]
    eqn:Hb; [|eauto].
  destruct (firstElement be) as [first|] eqn:Hf; [|eauto].
  destruct (lastElement be) as [last|] eqn:Hl; [|eauto].
  right. by exists should, be, first, last.
Qed.

(** A run whose boundary blocks exist: the document and the array of changed
    blocks it leaves, and its trace up to the close of the block. *)
Lemma execute_run (s : State) (should : bool) (be : BoundaryElements)
    (first last : Ref) :
  (_shouldMergeOnBlocksContentLevel s).1 = Ret should →
  (_getBoundaryElements (selection (model s)) should s).1 = Ret be →
  firstElement be = Some first →
  lastElement be = Some last →
  model (execute s).2 = foldl applyCall (model s) (callEvents should (model s) first last)
  ∧ changedBlocks (execute s).2 = touchedBlocks should (model s) first last
  ∧ _direction (this (execute s).2) = _direction (this s)
  ∧ ∃ tail,
      trace (execute s).2 =
        trace s ++ EnterChange :: callEvents should (model s) first last
          ++ Fire "afterExecute"
               (sortBlocks (model (execute s).2)
                  (newSet (changedBlocks (execute s).2)))
          :: tail
      ∧ (tail = [] ∨ tail = [LeaveChange])
      ∧ ((execute s).1 = Ret tt → tail = [LeaveChange]).
Proof.
  intros Hs Hb Hf Hl. rewrite execute_eq, Hs, Hb, Hf, Hl.
  destruct (closeBlock_run (model s) (firedState s should first last))
    as (-> & -> & -> & tail & -> & Htail & Hret).
  simpl. split; [done|]. split; [done|]. split; [done|].
  exists tail. split; [|by split].
  rewrite <- app_assoc. simpl. by rewrite <- app_assoc.
Qed.

Lemma callEvents_calls (should : bool) (m : Model) (first last : Ref) :
  Forall isHostCall (callEvents should m first last).
Proof.
  unfold callEvents, indentEvents, mergeEvents. apply Forall_app. split.
  - case_match; repeat constructor.
  - destruct should; [|repeat constructor].
    destruct (absorbed _ first last _); repeat constructor.
Qed.

Lemma indentEvents_model (m : Model) (last : Ref) (fi : Z) (li : option Z) :
  modelAfterIndent m last fi li = foldl applyCall m (indentEvents m last fi li).
Proof. unfold indentEvents, modelAfterIndent. by destruct (js_neq fi li). Qed.

Lemma mergeEvents_no_indent (should : bool) (m : Model) (first last : Ref)
    (id : option string) (blocks : list Ref) (n : JsNum) (e : bool) :
  CallIndentBlocks blocks n e ∉ mergeEvents should m first last id.
Proof.
  unfold mergeEvents. intros Hin. repeat case_match; decide_elem.
Qed.

(** *** Indent reconciliation *)

(** C4, as the code has it.  Let the indent of the first boundary block be
    its [listIndent], or 0 when it carries none, and let the last boundary
    block carry a [listIndent] that differs from it.  Then the first host
    call of [execute] hands the last block with its nested blocks to
    [indentBlocks], with the difference that brings the last block to the
    first block's indent, and asks for the expansion exactly when this is
    an outdent.  The document the run goes on with is the one
    [indentBlocks] returns, the blocks it returns are the first reported as
    changed, and no other re-indentation follows. *)
Theorem execute_indent_reconciliation (s : State) (should : bool)
    (be : BoundaryElements) (first last : Ref) (fi li : Z) :
  (_shouldMergeOnBlocksContentLevel s).1 = Ret should →
  (_getBoundaryElements (selection (model s)) should s).1 = Ret be →
  firstElement be = Some first →
  lastElement be = Some last →
  js_or_zero (getListIndent (model s) first) = fi →
  getListIndent (model s) last = Some li →
  fi ≠ li →
  ∃ d expand calls more tail,
    trace (execute s).2 =
      trace s ++ EnterChange
        :: CallIndentBlocks (last :: getNestedListBlocks (model s) last)
             (Num d) expand
        :: calls
        ++ Fire "afterExecute"
             (sortBlocks (model (execute s).2)
                (newSet (changedBlocks (execute s).2)))
        :: tail
    ∧ (li + d = fi)%Z
    ∧ (expand = true ↔ (fi < li)%Z)
    ∧ Forall isHostCall calls
    ∧ (∀ blocks n e, CallIndentBlocks blocks n e ∉ calls)
    ∧ (tail = [] ∨ tail = [LeaveChange])
    ∧ model (execute s).2 =
        foldl applyCall
          (indentBlocks (model s) (last :: getNestedListBlocks (model s) last)
             (Num d) expand).1
          calls
    ∧ changedBlocks (execute s).2 =
        (indentBlocks (model s) (last :: getNestedListBlocks (model s) last)
           (Num d) expand).2
        ++ more.
Proof.
  intros Hs Hb Hf Hl Hfi Hli Hne.
  destruct (execute_run s should be first last Hs Hb Hf Hl)
    as (Hm & Hc & _ & tail & Htr & Htail & _).
  pose proof (callEvents_calls should (model s) first last) as Hcalls.
  unfold callEvents, touchedBlocks in *.
  rewrite Hfi, Hli in *. unfold indentEvents, js_neq, js_sub, js_lt in *.
  rewrite bool_decide_eq_true_2 in * by congruence.
  simpl in *. apply Forall_cons in Hcalls as [_ Hcalls].
  eexists (fi - li)%Z, (bool_decide (fi < li)%Z), _, _, tail.
  split; [exact Htr|]. split; [lia|].
  split; [apply bool_decide_eq_true|]. split; [exact Hcalls|].
  split; [intros blocks n e; apply mergeEvents_no_indent|].
  split; [done|]. split; [exact Hm|exact Hc].
Qed.

(** X6.  Blocks at one indent level are not re-indented: when the indent of
    the first boundary block, an absent one counting as 0, equals the
    [listIndent] of the last, a run of [execute] makes no [indentBlocks]
    call. *)
Lemma execute_same_indent (s : State) (should : bool)
    (be : BoundaryElements) (first last : Ref) (li : Z) :
  (_shouldMergeOnBlocksContentLevel s).1 = Ret should →
  (_getBoundaryElements (selection (model s)) should s).1 = Ret be →
  firstElement be = Some first →
  lastElement be = Some last →
  js_or_zero (getListIndent (model s) first) = li →
  getListIndent (model s) last = Some li →
  ∀ blocks n e, CallIndentBlocks blocks n e ∉ drop (length (trace s)) (trace (execute s).2).
Proof.
  intros Hs Hb Hf Hl Hfi Hli blocks n e.
  destruct (execute_run s should be first last Hs Hb Hf Hl)
    as (_ & _ & _ & tail & -> & Htail & _).
  rewrite drop_app_length. unfold callEvents.
  rewrite Hfi, Hli. unfold indentEvents, js_neq.
  rewrite bool_decide_eq_false_2 by (intros Hc; by apply Hc).
  simpl. intros Hin. apply elem_of_cons in Hin as [Hin|Hin]; [done|].
  apply elem_of_app in Hin as [Hin|Hin].
  - by apply mergeEvents_no_indent in Hin.
  - destruct Htail as [-> | ->]; decide_elem.
Qed.

(** *** The set of changed blocks and its document order *)











#[local] Instance docOrder_trans (m : Model) : Transitive (docOrder m).
Proof. unfold docOrder. intros a b c. lia. Qed.

#[local] Instance docOrder_total (m : Model) : Total (docOrder m).
Proof. unfold docOrder. intros a b. lia. Qed.

#[local] Instance docOrder_antisymm (m : Model) : AntiSymm (=) (docOrder m).
Proof. unfold docOrder. intros a b. lia. Qed.








(** *** The merge proper *)

Lemma absorbed_Some (m : Model) (first last : Ref) (id : option string)
    (sibling : Ref) :
  absorbed m first last id = Some sibling ↔
  nextSibling (modelAfterDelete m first last) (lastElementAfterDelete m first last)
    = Some sibling
  ∧ sibling ≠ last
  ∧ getListItemId (modelAfterDelete m first last) sibling = id.
Proof.
  unfold absorbed.
  destruct (nextSibling _ _) as [n|]; [|by intuition].
  destruct (bool_decide (n ≠ last)) eqn:Hne; simpl.
  - apply bool_decide_eq_true in Hne.
    destruct (bool_decide (getListItemId _ n = id)) eqn:Hid.
    + apply bool_decide_eq_true in Hid. split.
      * intros [= <-]. done.
      * intros ([= <-] & _). done.
    + apply bool_decide_eq_false in Hid. split; [done|].
      intros ([= <-] & _ & ?). done.
  - apply bool_decide_eq_false in Hne. split; [done|].
    intros ([= <-] & ? & _). done.
Qed.

(** C5.  After the indent reconciliation [execute] merges.  For a
    content-level merge it deletes the selected content, or for a collapsed
    selection the span from the end of the first boundary block to the start
    of the last; the block following the block the deletion ends in is then
    merged into that block's list item exactly when it exists, is not the
    original last block and carries the original last block's list-item
    identifier.  Otherwise the last block is merged into the first as a
    structural list-item merge and no content is deleted.  In both cases the
    document the run leaves is the result of these host calls, and the
    blocks they touch are reported as changed after the re-indented ones. *)
Theorem execute_merge (s : State) (should : bool) (be : BoundaryElements)
    (first last : Ref) :
  (_shouldMergeOnBlocksContentLevel s).1 = Ret should →
  (_getBoundaryElements (selection (model s)) should s).1 = Ret be →
  firstElement be = Some first →
  lastElement be = Some last →
  let fi := js_or_zero (getListIndent (model s) first) in
  let li := getListIndent (model s) last in
  let m1 := modelAfterIndent (model s) last fi li in
  let before := trace s ++ EnterChange :: indentEvents (model s) last fi li in
  let reindented :=
    if js_neq fi li
    then (indentBlocks (model s) (last :: getNestedListBlocks (model s) last)
            (js_sub fi li) (js_lt fi li)).2
    else [] in
  let payload :=
    sortBlocks (model (execute s).2) (newSet (changedBlocks (execute s).2)) in
  ∃ tail,
    (tail = [] ∨ tail = [LeaveChange])
    ∧ (should = true →
       ∃ sel absorbedCalls absorbedBlocks,
         trace (execute s).2 =
           before ++ CallDeleteContent sel (isCollapsed (selection m1))
                  :: absorbedCalls ++ Fire "afterExecute" payload :: tail
         ∧ (isCollapsed (selection m1) = false → sel = TheDocumentSelection)
         ∧ (isCollapsed (selection m1) = true →
            sel = OwnSelection
                    (mkSelection (mkPosition first (elementMaxOffset m1 first))
                                 (mkPosition last 0)))
         ∧ (∀ sibling,
              absorbedCalls =
                [CallMergeListItemBefore sibling (lastElementAfterDelete m1 first last)]
              ↔ nextSibling (modelAfterDelete m1 first last)
                  (lastElementAfterDelete m1 first last) = Some sibling
                ∧ sibling ≠ last
                ∧ getListItemId (modelAfterDelete m1 first last) sibling
                  = getListItemId (model s) last)
         ∧ (absorbedCalls = [] ∧ absorbedBlocks = []
            ∨ ∃ sibling,
                absorbedCalls =
                  [CallMergeListItemBefore sibling
                     (lastElementAfterDelete m1 first last)]
                ∧ absorbedBlocks =
                    (mergeListItemBefore (modelAfterDelete m1 first last) sibling
                       (lastElementAfterDelete m1 first last)).2)
         ∧ model (execute s).2 =
             foldl applyCall
               (deleteContent m1 sel (isCollapsed (selection m1))).1
               absorbedCalls
         ∧ changedBlocks (execute s).2 =
             reindented ++ lastElementAfterDelete m1 first last :: absorbedBlocks)
    ∧ (should = false →
       trace (execute s).2 =
         before ++ CallMergeListItemBefore last first
                :: Fire "afterExecute" payload :: tail
       ∧ model (execute s).2 = (mergeListItemBefore m1 last first).1
       ∧ changedBlocks (execute s).2 =
           reindented ++ (mergeListItemBefore m1 last first).2).
Proof.
  intros Hs Hb Hf Hl fi li m1 before reindented payload.
  destruct (execute_run s should be first last Hs Hb Hf Hl)
    as (Hm & Hc & _ & tail & Htr & Htail & _).
  pose proof (indentEvents_model (model s) last fi li) as Hm1.
  fold m1 in Hm1.
  exists tail. split; [done|].
  unfold callEvents, touchedBlocks in *. fold fi li m1 in Hm, Hc, Htr.
  fold reindented in Hc. fold payload in Htr.
  rewrite foldl_app, <- Hm1 in Hm.
  split.
  - intros ->. unfold mergeEvents in *.
    exists (selectionToDelete m1 first last),
      (match absorbed m1 first last (getListItemId (model s) last) with
       | Some sibling =>
           [CallMergeListItemBefore sibling (lastElementAfterDelete m1 first last)]
       | None => []
       end),
      (match absorbed m1 first last (getListItemId (model s) last) with
       | Some sibling =>
           (mergeListItemBefore (modelAfterDelete m1 first last) sibling
              (lastElementAfterDelete m1 first last)).2
       | None => []
       end).
    split; [by rewrite Htr; unfold before; rewrite <- !app_assoc|].
    split; [unfold selectionToDelete; by intros ->|].
    split; [unfold selectionToDelete; by intros ->|].
    split.
    { intros sibling. rewrite <- absorbed_Some.
      destruct (absorbed m1 first last _) as [n|]; split; intros; by simplify_eq. }
    split.
    { destruct (absorbed m1 first last _) as [n|]; [right; eauto|by left]. }
    split; [exact Hm|exact Hc].
  - intros ->. unfold mergeEvents in *.
    split; [by rewrite Htr; unfold before; rewrite <- !app_assoc|].
    split; [exact Hm|exact Hc].
Qed.

(** *** The event and the transaction *)


(** C8.  Every run of [execute], raising or not, opens exactly one change
    block, and every host call that changes the document lies inside it:
    the calls follow the opening, the document the run leaves is the result
    of these calls applied in order, and whatever else the run records (the
    event, the closing of the block) comes after the last of them.  A run
    that returns has closed its block. *)
Theorem execute_single_transaction (s : State) :
  ∃ calls rest,
    trace (execute s).2 = trace s ++ EnterChange :: calls ++ rest
    ∧ Forall isHostCall calls
    ∧ model (execute s).2 = foldl applyCall (model s) calls
    ∧ (rest = []
       ∨ ∃ payload,
           rest = [Fire "afterExecute" payload]
           ∨ rest = [Fire "afterExecute" payload; LeaveChange])
    ∧ ((execute s).1 = Ret tt →
       ∃ payload, rest = [Fire "afterExecute" payload; LeaveChange]).
Proof.
  destruct (execute_cases s)
    as [[e He]|(should & be & first & last & Hs & Hb & Hf & Hl)].
  - exists [], []. rewrite He. simpl.
    split; [done|]. split; [constructor|]. split; [done|].
    split; [by left|]. by intros.
  - destruct (execute_run s should be first last Hs Hb Hf Hl)
      as (Hm & _ & _ & tail & Htr & Htail & Hret).
    eexists (callEvents should (model s) first last), _.
    split; [exact Htr|]. split; [apply callEvents_calls|].
    split; [exact Hm|]. split.
    + right. eexists. destruct Htail as [-> | ->]; [by left|by right].
    + intros Hr. rewrite (Hret Hr). eauto.
Qed.

(** *** The direction *)

Lemma execute_direction (s : State) :
  _direction (this (execute s).2) = _direction (this s).
Proof.
  destruct (execute_cases s)
    as [[e He]|(should & be & first & last & Hs & Hb & Hf & Hl)].
  - by rewrite He.
  - by destruct (execute_run s should be first last Hs Hb Hf Hl) as (_ & _ & ? & _).
Qed.

Lemma perform_direction (op : Operation) (s : State) :
  _direction (this (perform op s).2) = _direction (this s).
Proof.
  destruct op as [| |blocks]; unfold perform.
  - by destruct (refresh_model s) as (_ & ? & _).
  - apply execute_direction.
  - by rewrite fireAfterExecute_eq.
Qed.

(** C9.  The direction is the one given to the constructor and stays so
    through every sequence of refreshes, executions and event emissions. *)
Theorem direction_fixed (super_isEnabled : bool) (direction : Direction)
    (m : Model) (changed : list Ref) (tr : list Event) (ops : list Operation) :
  _direction (this (performAll ops
    (mkState m (constructor super_isEnabled direction) changed tr))) = direction.
Proof.
  transitivity
    (_direction (this (mkState m (constructor super_isEnabled direction) changed tr)));
    [|done].
  generalize (mkState m (constructor super_isEnabled direction) changed tr).
  induction ops as [|op ops IH]; intros s; simpl; [done|].
  by rewrite IH, perform_direction.
Qed.

End Properties.

Section MoreProperties.
Context `{Host}.

(** *** What the methods read *)

Lemma checkEnabled_eq (s : State) :
  _checkEnabled s =
    match (_shouldMergeOnBlocksContentLevel s).1 with
    | Throw e => (Throw e, s)
    | Ret should =>
        match (_getBoundaryElements (selection (model s)) should s).1 with
        | Throw e => (Throw e, s)
        | Ret be =>
            (Ret (if should
                  then isListItemBlock (model s) (lastElement be)
                  else isListItemBlock (model s) (firstElement be)), s)
        end
    end.
Proof.
  unfold _checkEnabled. unfold_monad. simpl.
  pose proof (shouldMerge_state s) as Hs.
  destruct (_shouldMergeOnBlocksContentLevel s) as [[should|e] s1];
    simpl in *; subst s1; [|done].
  destruct (getBoundaryElements_returns (selection (model s)) should s)
    as [be ->].
  by destruct should.
Qed.



Lemma getBoundaryElements_eq (sel : Selection) (should : bool) (s : State) :
  (_getBoundaryElements sel should s).1 =
    Ret (if isCollapsed sel then
           match _direction (this s) with
           | backward =>
               mkBoundaryElements
                 (if isFirstBlockOfListItem (model s) (parent (getFirstPosition sel))
                     && negb should
                  then ListWalker_first (model s) (parent (getFirstPosition sel))
                         (mkWalkerOptions true true)
                  else previousSibling (model s) (parent (getFirstPosition sel)))
                 (Some (parent (getFirstPosition sel)))
           | forward =>
               mkBoundaryElements
                 (Some (parent (getFirstPosition sel)))
                 (nextSibling (model s) (parent (getFirstPosition sel)))
           end
         else
           mkBoundaryElements (Some (parent (getFirstPosition sel)))
                              (Some (parent (getLastPosition sel)))).
Proof.
  unfold _getBoundaryElements. unfold_monad. simpl.
  destruct (isCollapsed sel); [|done].
  destruct (_direction (this s)); simpl; [|done].
  by destruct (isFirstBlockOfListItem _ _ && negb should).
Qed.


(** *** The enablement check is the precondition of the callback *)


(** X2.  [execute] fires its event exactly when the decision returns and both
    boundary blocks exist.  In every other case it raises on entry: the
    run has opened the change block and done nothing else, and the document
    is as it was.  So a run that returns has fired the event. *)
Theorem execute_fires_iff (s : State) :
  ((∃ payload,
      Fire "afterExecute" payload ∈ drop (length (trace s)) (trace (execute s).2))
   ↔ ∃ should be first last,
       (_shouldMergeOnBlocksContentLevel s).1 = Ret should
       ∧ (_getBoundaryElements (selection (model s)) should s).1 = Ret be
       ∧ firstElement be = Some first
       ∧ lastElement be = Some last)
  ∧ ((¬ ∃ payload,
        Fire "afterExecute" payload ∈ drop (length (trace s)) (trace (execute s).2)) →
     (∃ e, (execute s).1 = Throw e)
     ∧ model (execute s).2 = model s
     ∧ trace (execute s).2 = trace s ++ [EnterChange]).
Proof.
  assert ((∃ should be first last,
             (_shouldMergeOnBlocksContentLevel s).1 = Ret should
             ∧ (_getBoundaryElements (selection (model s)) should s).1 = Ret be
             ∧ firstElement be = Some first
             ∧ lastElement be = Some last) →
          ∃ payload,
            Fire "afterExecute" payload
              ∈ drop (length (trace s)) (trace (execute s).2)) as Hfired.
  { intros (should & be & first & last & Hs & Hb & Hf & Hl).
    destruct (execute_run s should be first last Hs Hb Hf Hl)
      as (_ & _ & _ & tail & -> & _).
    eexists. rewrite drop_app_length.
    apply elem_of_cons. right. apply elem_of_app. right. apply elem_of_cons.
    by left. }
  split; [split; [|done]|].
  - intros [payload Hin].
    destruct (execute_cases s) as [[e He]|Hex]; [|done].
    rewrite He in Hin. simpl in Hin. rewrite drop_app_length in Hin.
    decide_elem.
  - intros Hno.
    destruct (execute_cases s) as [[e He]|Hex].
    + rewrite He. simpl. eauto.
    + destruct Hno. by apply Hfired.
Qed.

(** *** Refresh *)

(** X3.  A refresh touches nothing but [isEnabled].  When the check returns, the
    flag holds its answer; when the check raises, the refresh raises with it
    and the flag keeps the value of an earlier refresh. *)
Theorem refresh_effect (s : State) :
  (∀ b, (_checkEnabled s).1 = Ret b →
        refresh s =
          (Ret tt, mkState (model s) (mkCommand (_direction (this s)) b)
                           (changedBlocks s) (trace s)))
  ∧ (∀ e, (_checkEnabled s).1 = Throw e → refresh s = (Throw e, s)).
Proof.
  unfold refresh. unfold_monad.
  pose proof (checkEnabled_state s) as Hs.
  destruct (_checkEnabled s) as [[b|e] s1]; simpl in *; subst s1;
    split; intros ? Heq; congruence.
Qed.

(** *** The closing of the change block *)


(** *** What [execute] depends on *)

Lemma closeBlock_frame (before : Model) (s s' : State) :
  model s = model s' → changedBlocks s = changedBlocks s' → trace s = trace s' →
  _direction (this s) = _direction (this s') →
  (closeBlock before s).1 = (closeBlock before s').1
  ∧ model (closeBlock before s).2 = model (closeBlock before s').2
  ∧ changedBlocks (closeBlock before s).2 = changedBlocks (closeBlock before s').2
  ∧ trace (closeBlock before s).2 = trace (closeBlock before s').2.
Proof.
  intros Hm Hc Ht Hd. rewrite !closeBlock_eq.
  rewrite <- (checkEnabled_frame s s' Hm Hd), <- Hm.
  destruct (hasDocumentChanged before (model s)).
  - destruct (_checkEnabled s).1 as [b|e]; simpl; by rewrite ?Hc, ?Ht.
  - simpl. by rewrite Hc, Ht.
Qed.

Lemma execute_frame (s s' : State) :
  model s = model s' → trace s = trace s' →
  _direction (this s) = _direction (this s') →
  (execute s).1 = (execute s').1
  ∧ model (execute s).2 = model (execute s').2
  ∧ changedBlocks (execute s).2 = changedBlocks (execute s').2
  ∧ trace (execute s).2 = trace (execute s').2.
Proof.
  intros Hm Htr Hd. rewrite !execute_eq.
  rewrite <- (shouldMerge_frame s s' Hm Hd), <- Hm.
  destruct (_shouldMergeOnBlocksContentLevel s).1 as [should|e];
    [|by unfold entered; simpl; rewrite Htr, Hm].
  rewrite <- (getBoundaryElements_frame _ should s s' Hm Hd).
  destruct (_getBoundaryElements (selection (model s)) should s).1 as [be|e];
    [|by unfold entered; simpl; rewrite Htr, Hm].
  destruct (firstElement be) as [first|];
    [|by unfold entered; simpl; rewrite Htr, Hm].
  destruct (lastElement be) as [last|];
    [|by unfold entered; simpl; rewrite Htr, Hm].
  apply closeBlock_frame; unfold firedState; simpl; by rewrite <- ?Hm, ?Htr.
Qed.

(** X4.  With a range selection the direction plays no part in the callback:
    the backward and the forward command are enabled together, and their
    [execute] makes the same host calls, leaves the same document, reports
    the same changed blocks and fires the same event.  Only the closing of
    the change block, which refreshes the command, may end differently. *)
Theorem range_direction_same_effect (m : Model) (c c' : Command)
    (changed changed' : list Ref) (tr : list Event) :
  isCollapsed (selection m) = false →
  (_checkEnabled (mkState m c changed tr)).1
  = (_checkEnabled (mkState m c' changed' tr)).1
  ∧ model (execute (mkState m c changed tr)).2
    = model (execute (mkState m c' changed' tr)).2
  ∧ changedBlocks (execute (mkState m c changed tr)).2
    = changedBlocks (execute (mkState m c' changed' tr)).2
  ∧ ∃ calls payload tail tail',
      trace (execute (mkState m c changed tr)).2 =
        tr ++ EnterChange :: calls ++ Fire "afterExecute" payload :: tail
      ∧ trace (execute (mkState m c' changed' tr)).2 =
          tr ++ EnterChange :: calls ++ Fire "afterExecute" payload :: tail'
      ∧ Forall isHostCall calls
      ∧ (tail = [] ∨ tail = [LeaveChange])
      ∧ (tail' = [] ∨ tail' = [LeaveChange]).
Proof.
  intros Hcol.
  assert (∀ c0 cb, (_shouldMergeOnBlocksContentLevel (mkState m c0 cb tr)).1
                   = Ret true) as Hs.
  { intros c0 cb. unfold _shouldMergeOnBlocksContentLevel. unfold_monad.
    simpl. by rewrite Hcol. }
  assert (∀ should c0 cb,
            (_getBoundaryElements (selection m) should (mkState m c0 cb tr)).1
            = Ret (mkBoundaryElements
                     (Some (parent (getFirstPosition (selection m))))
                     (Some (parent (getLastPosition (selection m)))))) as Hb.
  { intros should c0 cb. rewrite getBoundaryElements_eq. by rewrite Hcol. }
  split.
  { rewrite !checkEnabled_eq, !Hs. simpl. by rewrite !Hb. }
  destruct (execute_run (mkState m c changed tr) true _ _ _
              (Hs c changed) (Hb true c changed) eq_refl eq_refl)
    as (Hm & Hc & _ & tail & Htr & Htail & _).
  destruct (execute_run (mkState m c' changed' tr) true _ _ _
              (Hs c' changed') (Hb true c' changed') eq_refl eq_refl)
    as (Hm' & Hc' & _ & tail' & Htr' & Htail' & _).
  simpl in *.
  split; [by rewrite Hm, Hm'|]. split; [by rewrite Hc, Hc'|].
  eexists _, _, tail, tail'.
  split; [exact Htr|]. split; [by rewrite Htr', Hm', Hc', <- Hm, <- Hc|].
  split; [apply callEvents_calls|]. done.
Qed.

(** X5.  [execute] does not read [isEnabled], and nothing of the array of changed
    blocks of an earlier run enters its result: commands that differ only
    in these return or raise alike, leave the same document, report the
    same changed blocks and record the same calls and event.  The direction
    of the command is left as it was. *)
Theorem execute_independent_of_isEnabled (m : Model) (d : Direction) (b b' : bool)
    (changed changed' : list Ref) (tr : list Event) :
  (execute (mkState m (mkCommand d b) changed tr)).1
  = (execute (mkState m (mkCommand d b') changed' tr)).1
  ∧ model (execute (mkState m (mkCommand d b) changed tr)).2
    = model (execute (mkState m (mkCommand d b') changed' tr)).2
  ∧ changedBlocks (execute (mkState m (mkCommand d b) changed tr)).2
    = changedBlocks (execute (mkState m (mkCommand d b') changed' tr)).2
  ∧ trace (execute (mkState m (mkCommand d b) changed tr)).2
    = trace (execute (mkState m (mkCommand d b') changed' tr)).2
  ∧ _direction (this (execute (mkState m (mkCommand d b) changed tr)).2) = d.
Proof.
  destruct (execute_frame (mkState m (mkCommand d b) changed tr)
              (mkState m (mkCommand d b') changed' tr)) as (? & ? & ? & ?);
    [done..|].
  repeat split; try done. by rewrite execute_direction.
Qed.

(** *** Indent values at the edges *)

(** X7.  When the last boundary block carries no [listIndent], the comparison
    with the first block's indent still holds them different: [execute]
    calls [indentBlocks] with an amount that is not a number and without
    expansion. *)
Theorem execute_missing_last_indent (s : State) (should : bool)
    (be : BoundaryElements) (first last : Ref) :
  (_shouldMergeOnBlocksContentLevel s).1 = Ret should →
  (_getBoundaryElements (selection (model s)) should s).1 = Ret be →
  firstElement be = Some first →
  lastElement be = Some last →
  getListIndent (model s) last = None →
  ∃ rest,
    trace (execute s).2 =
      trace s ++ EnterChange
        :: CallIndentBlocks (last :: getNestedListBlocks (model s) last) NaN false
        :: rest.
Proof.
  intros Hs Hb Hf Hl Hli.
  destruct (execute_run s should be first last Hs Hb Hf Hl)
    as (_ & _ & _ & tail & -> & _).
  unfold callEvents. rewrite Hli. unfold indentEvents, js_neq, js_sub, js_lt.
  rewrite bool_decide_eq_true_2 by done. simpl. eauto.
Qed.

(** *** The caret at the edge of the document *)

(** X8.  In a block without next sibling the forward command is disabled.
    Executed all the same, it raises a TypeError on the absent last block,
    before any host call: the document is as it was. *)
Theorem forward_at_last_block (s : State) :
  isCollapsed (selection (model s)) = true →
  _direction (this s) = forward →
  nextSibling (model s) (parent (getFirstPosition (selection (model s)))) = None →
  _checkEnabled s = (Ret false, s)
  ∧ (execute s).1 = Throw TypeError
  ∧ model (execute s).2 = model s
  ∧ trace (execute s).2 = trace s ++ [EnterChange].
Proof.
  intros Hcol Hdir Hnext.
  assert ((_shouldMergeOnBlocksContentLevel s).1 = Ret true) as Hs.
  { unfold _shouldMergeOnBlocksContentLevel. unfold_monad. simpl.
    rewrite Hdir. simpl. by rewrite orb_true_r. }
  pose proof (getBoundaryElements_eq (selection (model s)) true s) as Hb.
  rewrite Hcol, Hdir, Hnext in Hb.
  split.
  - rewrite checkEnabled_eq, Hs, Hb. done.
  - rewrite execute_eq, Hs, Hb. done.
Qed.

(** X9.  In a block without previous sibling the backward command is not
    disabled: unless the schema takes an absent item for an object, the
    refresh raises and [isEnabled] keeps its earlier value, and [execute]
    raises before any host call. *)
Theorem backward_at_first_block (s : State) :
  isCollapsed (selection (model s)) = true →
  _direction (this s) = backward →
  previousSibling (model s) (parent (getFirstPosition (selection (model s)))) = None →
  schema_isObject_null ≠ Ret true →
  refresh s = (Throw TypeError, s)
  ∧ (execute s).1 = Throw TypeError
  ∧ model (execute s).2 = model s
  ∧ trace (execute s).2 = trace s ++ [EnterChange].
Proof.
  intros Hcol Hdir Hprev Hnull.
  assert ((_shouldMergeOnBlocksContentLevel s).1 = Throw TypeError) as Hs.
  { unfold _shouldMergeOnBlocksContentLevel, call_schema_isObject. unfold_monad.
    simpl. rewrite Hcol, Hdir, Hprev. simpl.
    destruct schema_isObject_null as [[|]|[]]; done. }
  split.
  - unfold refresh. unfold_monad. rewrite checkEnabled_eq, Hs. done.
  - rewrite execute_eq, Hs. done.
Qed.

(** *** The blocks reported as changed *)

(** X10.  The array of changed blocks at the end of a run holds, in this order and
    with nothing else: the blocks [indentBlocks] returned, if it was called;
    then, for a content-level merge, the block the deletion ends in followed
    by the blocks returned by the merge that absorbs the next block, and for
    a structural merge the blocks [mergeListItemBefore] returned. *)
Theorem execute_changed_blocks (s : State) (should : bool)
    (be : BoundaryElements) (first last : Ref) :
  (_shouldMergeOnBlocksContentLevel s).1 = Ret should →
  (_getBoundaryElements (selection (model s)) should s).1 = Ret be →
  firstElement be = Some first →
  lastElement be = Some last →
  let fi := js_or_zero (getListIndent (model s) first) in
  let li := getListIndent (model s) last in
  let m1 := modelAfterIndent (model s) last fi li in
  changedBlocks (execute s).2 =
    (if js_neq fi li
     then (indentBlocks (model s) (last :: getNestedListBlocks (model s) last)
             (js_sub fi li) (js_lt fi li)).2
     else [])
    ++ (if should then
          lastElementAfterDelete m1 first last
          :: match absorbed m1 first last (getListItemId (model s) last) with
             | Some sibling =>
                 (mergeListItemBefore (modelAfterDelete m1 first last) sibling
                    (lastElementAfterDelete m1 first last)).2
             | None => []
             end
        else (mergeListItemBefore m1 last first).2).
Proof.
  intros Hs Hb Hf Hl fi li m1.
  destruct (execute_run s should be first last Hs Hb Hf Hl) as (_ & -> & _).
  reflexivity.
Qed.

(** X11.  Under an enabled command a content-level merge absorbs list-item blocks
    only: the absorbed block carries the list-item identifier that the last
    boundary block had when the run began. *)
Theorem enabled_absorbs_list_item (s : State) (be : BoundaryElements)
    (first last sibling : Ref) :
  (_checkEnabled s).1 = Ret true →
  (_shouldMergeOnBlocksContentLevel s).1 = Ret true →
  (_getBoundaryElements (selection (model s)) true s).1 = Ret be →
  firstElement be = Some first →
  lastElement be = Some last →
  let m1 := modelAfterIndent (model s) last
              (js_or_zero (getListIndent (model s) first))
              (getListIndent (model s) last) in
  CallMergeListItemBefore sibling (lastElementAfterDelete m1 first last)
    ∈ drop (length (trace s)) (trace (execute s).2) →
  isListItemBlock (modelAfterDelete m1 first last) (Some sibling) = true
  ∧ getListItemId (modelAfterDelete m1 first last) sibling
    = getListItemId (model s) last.
Proof.
  intros Hen Hs Hb Hf Hl m1 Hin.
  rewrite checkEnabled_eq, Hs, Hb, Hl in Hen. simpl in Hen.
  injection Hen as Hen. apply bool_decide_eq_true in Hen as [id Hid].
  destruct (execute_run s true be first last Hs Hb Hf Hl)
    as (_ & _ & _ & tail & Htr & Htail & _).
  rewrite Htr, drop_app_length in Hin. unfold callEvents in Hin. fold m1 in Hin.
  assert (absorbed m1 first last (getListItemId (model s) last) = Some sibling)
    as Habs.
  { apply elem_of_cons in Hin as [?|Hin]; [done|].
    apply elem_of_app in Hin as [Hin|Hin].
    - apply elem_of_app in Hin as [Hin|Hin].
      { unfold indentEvents in Hin. case_match; decide_elem. }
      unfold mergeEvents in Hin.
      apply elem_of_cons in Hin as [?|Hin]; [done|].
      destruct (absorbed m1 first last _) as [n|]; [|decide_elem].
      apply list_elem_of_singleton in Hin. by simplify_eq.
    - destruct Htail as [-> | ->]; decide_elem. }
  apply absorbed_Some in Habs as (_ & _ & Hsame).
  split; [|done]. simpl. rewrite Hsame, Hid. by apply bool_decide_eq_true.
Qed.

End MoreProperties.
(** ** The reference host on lists *)

(** The walk with both options set stops at the nearest preceding block at
    the same or a lower indent: every block it steps over is a list block
    nested deeper than the reference indent. *)
Lemma walkBack_nearest (m : Model) (referenceIndent : Z) (blocks : list Ref)
    (b : Ref) :
  walkBack m referenceIndent (mkWalkerOptions true true) blocks = Some b →
  ∃ skipped rest indent,
    blocks = skipped ++ b :: rest
    ∧ getListIndent m b = Some indent
    ∧ (indent ≤ referenceIndent)%Z
    ∧ Forall (λ x, ∃ i, getListIndent m x = Some i ∧ (referenceIndent < i)%Z)
             skipped.
Proof.
  induction blocks as [|x blocks IH]; simpl; [done|].
  destruct (getListIndent m x) as [indent|] eqn:Hx; [|done].
  case_bool_decide as Hlt.
  - intros (skipped & rest & i & -> & Hb & Hle & Hall)%IH.
    exists (x :: skipped), rest, i. split; [done|]. split; [done|].
    split; [done|]. constructor; [eauto|done].
  - case_bool_decide as Heq; simpl; intros [= <-];
      exists [], blocks, indent; repeat split; try done; try lia; constructor.
Qed.

(** The nested blocks of a block are a prefix of the blocks after it, all
    list blocks at a higher indent. *)
Lemma takeNested_prefix (m : Model) (referenceIndent : Z) (blocks : list Ref) :
  ∃ rest,
    blocks = takeNested m referenceIndent blocks ++ rest
    ∧ Forall (λ x, ∃ i, getListIndent m x = Some i ∧ (referenceIndent < i)%Z)
             (takeNested m referenceIndent blocks).
Proof.
  induction blocks as [|x blocks (rest & Hrest & Hall)]; simpl.
  - exists []. split; [done|constructor].
  - destruct (getListIndent m x) as [indent|] eqn:Hx.
    + case_bool_decide as Hlt.
      * exists rest. simpl. split; [by rewrite <- Hrest|].
        constructor; [eauto|done].
      * exists (x :: blocks). split; [done|constructor].
    + exists (x :: blocks). split; [done|constructor].
Qed.

Lemma updateElement_lookup (f : Element → Element) (m : Model) (e b : Ref) :
  heap (updateElement f m e) !! b
  = if decide (e = b) then f <$> heap m !! b else heap m !! b.
Proof.
  unfold updateElement. simpl. rewrite lookup_alter.
  by destruct (decide (e = b)) as [->|].
Qed.

Lemma foldl_updateElement_notin (f : Element → Element) (l : list Ref)
    (m : Model) (b : Ref) :
  b ∉ l → heap (foldl (updateElement f) m l) !! b = heap m !! b.
Proof.
  revert m. induction l as [|x l IH]; intros m Hb; simpl; [done|].
  apply not_elem_of_cons in Hb as [Hne Hb].
  rewrite IH, updateElement_lookup by done. by rewrite decide_False.
Qed.

Lemma foldl_updateElement_in (f : Element → Element) (l : list Ref)
    (m : Model) (b : Ref) :
  NoDup l → b ∈ l →
  heap (foldl (updateElement f) m l) !! b = f <$> heap m !! b.
Proof.
  revert m. induction l as [|x l IH]; intros m Hnd Hb; simpl.
  - by apply elem_of_nil in Hb.
  - apply NoDup_cons in Hnd as [Hx Hnd].
    apply elem_of_cons in Hb as [->|Hb].
    + rewrite foldl_updateElement_notin, updateElement_lookup by done.
      by rewrite decide_True.
    + rewrite IH, updateElement_lookup by done.
      rewrite decide_False; [done|]. by intros ->.
Qed.

(** The reference [indentBlocks] moves every block it is given by the
    amount asked for and leaves the other blocks as they are. *)
Lemma ref_indentBlocks_reindents (m : Model) (blocks : list Ref) (d : Z)
    (b : Ref) (indent : Z) :
  NoDup blocks → b ∈ blocks →
  getListIndent m b = Some indent → (0 ≤ indent + d)%Z →
  getListIndent (ref_indentBlocks m blocks (Num d) false).1 b
  = Some (indent + d)%Z.
Proof.
  intros Hnd Hb Hindent Hnonneg. unfold ref_indentBlocks, getListIndent in *.
  simpl. rewrite foldl_updateElement_in by done.
  destruct (heap m !! b) as [e|]; [|done]. simpl in *.
  unfold indentOne. rewrite Hindent.
  by rewrite bool_decide_eq_false_2 by lia.
Qed.

Lemma ref_indentBlocks_others (m : Model) (blocks : list Ref) (n : JsNum)
    (expand : bool) (b : Ref) :
  b ∉ (ref_indentBlocks m blocks n expand).2 →
  heap (ref_indentBlocks m blocks n expand).1 !! b = heap m !! b.
Proof. unfold ref_indentBlocks. simpl. apply foldl_updateElement_notin. Qed.

(** ** The theorems at concrete documents *)

Lemma shouldMerge_decision_witness :
  (isCollapsed (selection (model (start forward twoItems))) = false
   ∨ _direction (this (start forward twoItems)) = forward)
  ∧ _shouldMergeOnBlocksContentLevel (start forward twoItems)
    = (Ret true, start forward twoItems)
  ∧ (isCollapsed (selection (model (start backward oneItem))) = true
     ∧ _direction (this (start backward oneItem)) = backward
     ∧ previousSibling (model (start backward oneItem))
         (parent (getFirstPosition (selection (model (start backward oneItem)))))
       = Some 0
     ∧ schema_isObject (model (start backward oneItem)) 0 = false
     ∧ elementIsEmpty (model (start backward oneItem)) 0 = false)
  ∧ ∃ b, _shouldMergeOnBlocksContentLevel (start backward oneItem)
         = (Ret b, start backward oneItem)
         ∧ (b = true ↔
            ∃ id, getListItemId (model (start backward oneItem))
                    (parent (getFirstPosition
                       (selection (model (start backward oneItem))))) = Some id
                  ∧ getListItemId (model (start backward oneItem)) 0 = Some id).
Proof.
  split; [by right|].
  split.
  { apply (shouldMerge_decision (start forward twoItems)). by right. }
  split; [repeat split; by vm_compute|].
  apply (shouldMerge_decision (start backward oneItem)); by vm_compute.
Defined.

(** The object test comes before the emptiness test: an empty block image
    before the caret gives a structural merge. *)
Example shouldMerge_empty_object :
  schema_isObject afterImage 0 = true
  ∧ elementIsEmpty afterImage 0 = true
  ∧ (_shouldMergeOnBlocksContentLevel (start backward afterImage)).1 = Ret false.
Proof. repeat split; by vm_compute. Qed.

Lemma getBoundaryElements_resolution_witness :
  (isCollapsed (selection nestedItems) = true
   ∧ _direction (this (start backward nestedItems)) = backward
   ∧ isFirstBlockOfListItem (model (start backward nestedItems))
       (parent (getFirstPosition (selection nestedItems))) = true)
  ∧ _getBoundaryElements (selection nestedItems) false (start backward nestedItems)
    = (Ret (mkBoundaryElements
              (ListWalker_first (model (start backward nestedItems))
                 (parent (getFirstPosition (selection nestedItems)))
                 (mkWalkerOptions true true))
              (Some (parent (getFirstPosition (selection nestedItems))))),
       start backward nestedItems)
  ∧ isCollapsed (selection rangeOverItems) = false
  ∧ _getBoundaryElements (selection rangeOverItems) true (start forward rangeOverItems)
    = (Ret (mkBoundaryElements (Some 0) (Some 1)), start forward rangeOverItems).
Proof.
  split; [repeat split; by vm_compute|].
  split.
  { destruct (getBoundaryElements_resolution (start backward nestedItems)
                (selection nestedItems) false) as (_ & _ & Hwalk & _).
    apply Hwalk; by vm_compute. }
  split; [by vm_compute|].
  destruct (getBoundaryElements_resolution (start forward rangeOverItems)
              (selection rangeOverItems) true) as (Hrange & _).
  apply Hrange. by vm_compute.
Defined.

Lemma checkEnabled_boundary_block_witness :
  (_shouldMergeOnBlocksContentLevel (start backward twoItems)).1 = Ret false
  ∧ ∃ be,
      _getBoundaryElements (selection (model (start backward twoItems))) false
        (start backward twoItems) = (Ret be, start backward twoItems)
      ∧ _checkEnabled (start backward twoItems)
        = (Ret (isListItemBlock (model (start backward twoItems)) (firstElement be)),
           start backward twoItems).
Proof.
  split; [by vm_compute|].
  apply (checkEnabled_boundary_block (start backward twoItems)).
  by vm_compute.
Defined.

(** On this document the check is false for every host whose schema does not
    take the paragraph for an object and whose list walk finds no list block
    before the item. *)
Lemma checkEnabled_structural_any_host `{Host} :
  schema_isObject paragraphThenItem 0 = false →
  isListItemBlock paragraphThenItem
    (ListWalker_first paragraphThenItem 1 (mkWalkerOptions true true)) = false →
  (_checkEnabled (start backward paragraphThenItem)).1 = Ret false.
Proof.
  intros Hobj Hwalk.
  unfold _checkEnabled, _shouldMergeOnBlocksContentLevel, call_schema_isObject,
    _getBoundaryElements.
  unfold_monad. simpl.
  change (previousSibling paragraphThenItem 1) with (Some 0).
  simpl. rewrite Hobj. simpl.
  change (elementIsEmpty paragraphThenItem 0) with false.
  change (isSingleListItem paragraphThenItem [1; 0]) with false.
  simpl.
  destruct (isFirstBlockOfListItem paragraphThenItem 1); simpl.
  - exact (f_equal Ret Hwalk).
  - done.
Qed.

(** C3 as stated fails.  A plain paragraph is followed by a list item with
    the caret at its start, the direction is backward.  The merge is
    structural, the last boundary block is the list item, and the walk for
    the first boundary block finds no list block: the check answers false
    although the last boundary block is a list-item block. *)
Lemma checkEnabled_last_block_counterexample :
  (_shouldMergeOnBlocksContentLevel (start backward paragraphThenItem)).1
    = Ret false
  ∧ (_getBoundaryElements (selection paragraphThenItem) false
       (start backward paragraphThenItem)).1
    = Ret (mkBoundaryElements None (Some 1))
  ∧ isListItemBlock paragraphThenItem (Some 1) = true
  ∧ (_checkEnabled (start backward paragraphThenItem)).1 = Ret false
  ∧ ¬ ((_checkEnabled (start backward paragraphThenItem)).1 = Ret true
       ↔ isListItemBlock paragraphThenItem (Some 1) = true).
Proof.
  assert ((_checkEnabled (start backward paragraphThenItem)).1 = Ret false)
    as Hcheck by (by vm_compute).
  repeat split; try (by vm_compute).
  rewrite Hcheck. intros [_ Hlast]. by specialize (Hlast eq_refl).
Qed.

Lemma checkEnabled_idempotent_witness :
  (_checkEnabled (start backward twoItems)).1 = Ret true
  ∧ (_checkEnabled (refreshes 3 (start backward twoItems))).1
    = (_checkEnabled (start backward twoItems)).1
  ∧ isEnabled (this (refreshes 4 (start backward twoItems))) = true.
Proof.
  split; [by vm_compute|].
  split.
  - apply (checkEnabled_idempotent (start backward twoItems) 3).
  - apply (checkEnabled_idempotent (start backward twoItems) 3).
    by vm_compute.
Defined.

Lemma shouldMerge_previousSibling_total_witness :
  (isCollapsed (selection (model (start backward atDocumentStart))) = true
   ∧ _direction (this (start backward atDocumentStart)) = backward
   ∧ previousSibling (model (start backward atDocumentStart))
       (parent (getFirstPosition (selection (model (start backward atDocumentStart)))))
     = None)
  ∧ _shouldMergeOnBlocksContentLevel (start backward atDocumentStart)
    = (Throw TypeError, start backward atDocumentStart)
  ∧ previousSibling (model (start backward twoItems))
      (parent (getFirstPosition (selection (model (start backward twoItems)))))
    = Some 0
  ∧ ∃ b, _shouldMergeOnBlocksContentLevel (start backward twoItems)
         = (Ret b, start backward twoItems).
Proof.
  split; [repeat split; by vm_compute|].
  split.
  { destruct (shouldMerge_previousSibling_total (start backward atDocumentStart))
      as [_ Habsent]; [by vm_compute..|].
    apply Habsent. by vm_compute. }
  split; [by vm_compute|].
  destruct (shouldMerge_previousSibling_total (start backward twoItems))
    as [Hpresent _]; [by vm_compute..|].
  apply (Hpresent 0). by vm_compute.
Defined.

Lemma execute_indent_reconciliation_witness :
  ((_shouldMergeOnBlocksContentLevel (start backward nestedItems)).1 = Ret false
   ∧ (_getBoundaryElements (selection (model (start backward nestedItems))) false
        (start backward nestedItems)).1
     = Ret (mkBoundaryElements (Some 0) (Some 1))
   ∧ js_or_zero (getListIndent (model (start backward nestedItems)) 0) = 0%Z
   ∧ getListIndent (model (start backward nestedItems)) 1 = Some 1%Z
   ∧ 0%Z ≠ 1%Z)
  ∧ ∃ d expand calls more tail,
      trace (execute (start backward nestedItems)).2 =
        trace (start backward nestedItems) ++ EnterChange
          :: CallIndentBlocks
               (1 :: getNestedListBlocks (model (start backward nestedItems)) 1)
               (Num d) expand
          :: calls
          ++ Fire "afterExecute"
               (sortBlocks (model (execute (start backward nestedItems)).2)
                  (newSet (changedBlocks (execute (start backward nestedItems)).2)))
          :: tail
      ∧ (1 + d = 0)%Z
      ∧ (expand = true ↔ (0 < 1)%Z)
      ∧ Forall isHostCall calls
      ∧ (∀ blocks n e, CallIndentBlocks blocks n e ∉ calls)
      ∧ (tail = [] ∨ tail = [LeaveChange])
      ∧ model (execute (start backward nestedItems)).2 =
          foldl applyCall
            (indentBlocks (model (start backward nestedItems))
               (1 :: getNestedListBlocks (model (start backward nestedItems)) 1)
               (Num d) expand).1
            calls
      ∧ changedBlocks (execute (start backward nestedItems)).2 =
          (indentBlocks (model (start backward nestedItems))
             (1 :: getNestedListBlocks (model (start backward nestedItems)) 1)
             (Num d) expand).2
          ++ more.
Proof.
  split; [repeat split; by vm_compute|].
  apply (execute_indent_reconciliation (start backward nestedItems) false
           (mkBoundaryElements (Some 0) (Some 1)) 0 1 0%Z 1%Z); by vm_compute.
Defined.

(** The outdent of the nested item on the reference host: the item and the
    item nested under it are re-indented first, then the merge follows. *)
Example execute_nested_trace :
  execute (start backward nestedItems)
  = (Ret tt,
     mkState (model (execute (start backward nestedItems)).2)
       (mkCommand backward true) [1; 2; 1]
       [EnterChange; CallIndentBlocks [1; 2] (Num (-1)) true;
        CallMergeListItemBefore 1 0; Fire "afterExecute" [1; 2]; LeaveChange])
  ∧ getListIndent (model (execute (start backward nestedItems)).2) 1 = Some 0%Z
  ∧ getListIndent (model (execute (start backward nestedItems)).2) 2 = Some 1%Z.
Proof. repeat split; by vm_compute. Qed.

(** C4 as stated fails.  A plain paragraph with the caret at its end is
    followed by a top-level list item, the direction is forward.  The
    boundary blocks are the paragraph and the item; the paragraph carries no
    [listIndent] and the item carries 0, so their [listIndent] values
    differ.  The absent value is read as 0, the two indents compare equal
    and the run makes no [indentBlocks] call: nothing is re-indented.  With
    the blocks the other way round, a list item followed by a plain
    paragraph, the amount handed to [indentBlocks] is not a number, so the
    call is not a re-indentation by the difference of the two indents. *)
Lemma execute_reindent_counterexample :
  ((_shouldMergeOnBlocksContentLevel (start forward paragraphBeforeItem)).1
     = Ret true
   ∧ (_getBoundaryElements (selection paragraphBeforeItem) true
        (start forward paragraphBeforeItem)).1
     = Ret (mkBoundaryElements (Some 0) (Some 1))
   ∧ getListIndent paragraphBeforeItem 0 = None
   ∧ getListIndent paragraphBeforeItem 1 = Some 0%Z
   ∧ getListIndent paragraphBeforeItem 0 ≠ getListIndent paragraphBeforeItem 1
   ∧ ∀ blocks n e,
       CallIndentBlocks blocks n e
       ∉ trace (execute (start forward paragraphBeforeItem)).2)
  ∧ ((_shouldMergeOnBlocksContentLevel (start forward itemThenParagraph)).1
       = Ret true
     ∧ (_getBoundaryElements (selection itemThenParagraph) true
          (start forward itemThenParagraph)).1
       = Ret (mkBoundaryElements (Some 0) (Some 1))
     ∧ getListIndent itemThenParagraph 0 = Some 0%Z
     ∧ getListIndent itemThenParagraph 1 = None
     ∧ getListIndent itemThenParagraph 0 ≠ getListIndent itemThenParagraph 1
     ∧ ∀ blocks n e,
         CallIndentBlocks blocks n e
         ∈ trace (execute (start forward itemThenParagraph)).2 →
         n = NaN ∧ e = false).
Proof.
  assert (trace (execute (start forward paragraphBeforeItem)).2
          = [EnterChange;
             CallDeleteContent
               (OwnSelection (mkSelection (mkPosition 0 3) (mkPosition 1 0))) true;
             Fire "afterExecute" [0]; LeaveChange]) as Htr by (by vm_compute).
  assert (trace (execute (start forward itemThenParagraph)).2
          = [EnterChange; CallIndentBlocks [1] NaN false;
             CallDeleteContent
               (OwnSelection (mkSelection (mkPosition 0 3) (mkPosition 1 0))) true;
             Fire "afterExecute" [0; 1]; LeaveChange]) as Htr' by (by vm_compute).
  split.
  - repeat split; try (by vm_compute).
    intros blocks n e. rewrite Htr. intros Hin. decide_elem.
  - repeat split; try (by vm_compute); rewrite Htr' in *;
      repeat match goal with
             | Hin : _ ∈ _ :: _ |- _ => apply elem_of_cons in Hin as [Hin|Hin]
             | Hin : _ ∈ [] |- _ => by apply elem_of_nil in Hin
             end; congruence.
Qed.

Lemma execute_merge_witness :
  ((_shouldMergeOnBlocksContentLevel (start forward beforeTwoBlockItem)).1 = Ret true
   ∧ (_getBoundaryElements (selection (model (start forward beforeTwoBlockItem)))
        true (start forward beforeTwoBlockItem)).1
     = Ret (mkBoundaryElements (Some 0) (Some 1)))
  ∧ (let fi := js_or_zero (getListIndent (model (start forward beforeTwoBlockItem)) 0) in
  let li := getListIndent (model (start forward beforeTwoBlockItem)) 1 in
  let m1 := modelAfterIndent (model (start forward beforeTwoBlockItem)) 1 fi li in
  let before :=
    trace (start forward beforeTwoBlockItem) ++ EnterChange
      :: indentEvents (model (start forward beforeTwoBlockItem)) 1 fi li in
  let reindented :=
    if js_neq fi li
    then (indentBlocks (model (start forward beforeTwoBlockItem))
            (1 :: getNestedListBlocks (model (start forward beforeTwoBlockItem)) 1)
            (js_sub fi li) (js_lt fi li)).2
    else [] in
  let payload :=
    sortBlocks (model (execute (start forward beforeTwoBlockItem)).2)
      (newSet (changedBlocks (execute (start forward beforeTwoBlockItem)).2)) in
  ∃ tail,
    (tail = [] ∨ tail = [LeaveChange])
    ∧ (true = true →
       ∃ sel absorbedCalls absorbedBlocks,
         trace (execute (start forward beforeTwoBlockItem)).2 =
           before ++ CallDeleteContent sel (isCollapsed (selection m1))
                  :: absorbedCalls ++ Fire "afterExecute" payload :: tail
         ∧ (isCollapsed (selection m1) = false → sel = TheDocumentSelection)
         ∧ (isCollapsed (selection m1) = true →
            sel = OwnSelection
                    (mkSelection (mkPosition 0 (elementMaxOffset m1 0))
                                 (mkPosition 1 0)))
         ∧ (∀ sibling,
              absorbedCalls =
                [CallMergeListItemBefore sibling (lastElementAfterDelete m1 0 1)]
              ↔ nextSibling (modelAfterDelete m1 0 1)
                  (lastElementAfterDelete m1 0 1) = Some sibling
                ∧ sibling ≠ 1
                ∧ getListItemId (modelAfterDelete m1 0 1) sibling
                  = getListItemId (model (start forward beforeTwoBlockItem)) 1)
         ∧ (absorbedCalls = [] ∧ absorbedBlocks = []
            ∨ ∃ sibling,
                absorbedCalls =
                  [CallMergeListItemBefore sibling
                     (lastElementAfterDelete m1 0 1)]
                ∧ absorbedBlocks =
                    (mergeListItemBefore (modelAfterDelete m1 0 1) sibling
                       (lastElementAfterDelete m1 0 1)).2)
         ∧ model (execute (start forward beforeTwoBlockItem)).2 =
             foldl applyCall
               (deleteContent m1 sel (isCollapsed (selection m1))).1
               absorbedCalls
         ∧ changedBlocks (execute (start forward beforeTwoBlockItem)).2 =
             reindented ++ lastElementAfterDelete m1 0 1 :: absorbedBlocks)
    ∧ (true = false →
       trace (execute (start forward beforeTwoBlockItem)).2 =
         before ++ CallMergeListItemBefore 1 0
                :: Fire "afterExecute" payload :: tail
       ∧ model (execute (start forward beforeTwoBlockItem)).2
         = (mergeListItemBefore m1 1 0).1
       ∧ changedBlocks (execute (start forward beforeTwoBlockItem)).2 =
           reindented ++ (mergeListItemBefore m1 1 0).2)).
Proof.
  split; [repeat split; by vm_compute|].
  apply (execute_merge (start forward beforeTwoBlockItem) true
           (mkBoundaryElements (Some 0) (Some 1)) 0 1); by vm_compute.
Defined.

(** The forward merge into an item of two blocks on the reference host: the
    span between the two blocks is deleted, and the second block of the item
    that was merged away is absorbed. *)
Example execute_absorbs_next_block :
  (execute (start forward beforeTwoBlockItem)).1 = Ret tt
  ∧ trace (execute (start forward beforeTwoBlockItem)).2
    = [EnterChange;
       CallDeleteContent
         (OwnSelection (mkSelection (mkPosition 0 3) (mkPosition 1 0))) true;
       CallMergeListItemBefore 2 0;
       Fire "afterExecute" [0; 2];
       LeaveChange]
  ∧ changedBlocks (execute (start forward beforeTwoBlockItem)).2 = [0; 2]
  ∧ children (model (execute (start forward beforeTwoBlockItem)).2) = [0; 2]
  ∧ getListItemId (model (execute (start forward beforeTwoBlockItem)).2) 2
    = Some "a".
Proof. repeat split; by vm_compute. Qed.


(** The blocks are pushed out of document order and one of them twice: the
    re-indentation pushes block 1 and its nested block 2, the merge pushes
    block 1 again.  The payload holds each once, in document order. *)
Example execute_payload_order :
  (execute (start backward nestedItems)).1 = Ret tt
  ∧ changedBlocks (execute (start backward nestedItems)).2 = [1; 2; 1]
  ∧ children (model (execute (start backward nestedItems)).2) = [0; 1; 2]
  ∧ trace (execute (start backward nestedItems)).2
    = [EnterChange;
       CallIndentBlocks [1; 2] (Num (-1)) true;
       CallMergeListItemBefore 1 0;
       Fire "afterExecute" [1; 2];
       LeaveChange]
  ∧ changedBlocks (execute (start backward nestedAfterEmpty)).2 = [2; 3; 1]
  ∧ index (model (execute (start backward nestedAfterEmpty)).2) 3 = Some 2
  ∧ index (model (execute (start backward nestedAfterEmpty)).2) 1 = Some 1.
Proof. repeat split; by vm_compute. Qed.


Lemma execute_single_transaction_witness :
  ∃ calls rest,
    trace (execute (start backward afterEmpty)).2
    = trace (start backward afterEmpty) ++ EnterChange :: calls ++ rest
    ∧ Forall isHostCall calls
    ∧ model (execute (start backward afterEmpty)).2
      = foldl applyCall (model (start backward afterEmpty)) calls
    ∧ (rest = []
       ∨ ∃ payload,
           rest = [Fire "afterExecute" payload]
           ∨ rest = [Fire "afterExecute" payload; LeaveChange])
    ∧ ((execute (start backward afterEmpty)).1 = Ret tt →
       ∃ payload, rest = [Fire "afterExecute" payload; LeaveChange]).
Proof. apply (execute_single_transaction (start backward afterEmpty)). Defined.

(** Two runs on the reference host.  On two list items the backward merge
    returns, with its one host call between the opening and the event.  On
    an empty item followed by an item with the caret the command is enabled
    and the run raises: the deletion leaves the caret in the first block of
    the document, and the refresh at the closing of the change block reads
    the absent previous sibling.  The host call and the event lie inside the
    block in this run too, and the document is the result of the call. *)
Example execute_raises_at_close :
  ((execute (start backward twoItems)).1 = Ret tt
   ∧ trace (execute (start backward twoItems)).2
     = [EnterChange; CallMergeListItemBefore 1 0; Fire "afterExecute" [1];
        LeaveChange])
  ∧ (_checkEnabled (start backward afterEmpty)).1 = Ret true
  ∧ (execute (start backward afterEmpty)).1 = Throw TypeError
  ∧ trace (execute (start backward afterEmpty)).2
    = [EnterChange;
       CallDeleteContent
         (OwnSelection (mkSelection (mkPosition 0 0) (mkPosition 1 0))) true;
       Fire "afterExecute" [0]]
  ∧ model (execute (start backward afterEmpty)).2
    = (deleteContent afterEmpty
         (OwnSelection (mkSelection (mkPosition 0 0) (mkPosition 1 0))) true).1
  ∧ children (model (execute (start backward afterEmpty)).2) = [0].
Proof. repeat split; by vm_compute. Qed.

(** ** The further properties at concrete documents *)


Lemma execute_fires_iff_witness :
  ((_shouldMergeOnBlocksContentLevel (start backward twoItems)).1 = Ret false
   ∧ (_getBoundaryElements (selection (model (start backward twoItems))) false
        (start backward twoItems)).1
     = Ret (mkBoundaryElements (Some 0) (Some 1)))
  ∧ (∃ payload,
       Fire "afterExecute" payload
       ∈ drop (length (trace (start backward twoItems)))
              (trace (execute (start backward twoItems)).2))
  ∧ (¬ ∃ payload,
         Fire "afterExecute" payload
         ∈ drop (length (trace (start forward twoItems)))
                (trace (execute (start forward twoItems)).2))
  ∧ (∃ e, (execute (start forward twoItems)).1 = Throw e)
  ∧ model (execute (start forward twoItems)).2 = model (start forward twoItems)
  ∧ trace (execute (start forward twoItems)).2
    = trace (start forward twoItems) ++ [EnterChange].
Proof.
  assert (¬ ∃ payload,
            Fire "afterExecute" payload
            ∈ drop (length (trace (start forward twoItems)))
                   (trace (execute (start forward twoItems)).2)) as Hno.
  { assert (trace (execute (start forward twoItems)).2 = [EnterChange]) as Htr
      by (by vm_compute).
    intros [payload Hin]. rewrite Htr in Hin. simpl in Hin. decide_elem. }
  split; [split; by vm_compute|].
  split.
  - apply (execute_fires_iff (start backward twoItems)).
    exists false, (mkBoundaryElements (Some 0) (Some 1)), 0, 1.
    repeat split; by vm_compute.
  - split; [exact Hno|].
    destruct (execute_fires_iff (start forward twoItems)) as [_ Hraise].
    apply Hraise, Hno.
Defined.

Lemma refresh_effect_witness :
  ((_checkEnabled (start backward twoItems)).1 = Ret true
   ∧ (_checkEnabled enabledAtDocumentStart).1 = Throw TypeError)
  ∧ refresh (start backward twoItems)
    = (Ret tt, mkState twoItems (mkCommand backward true) [] [])
  ∧ refresh enabledAtDocumentStart = (Throw TypeError, enabledAtDocumentStart)
  ∧ isEnabled (this (refresh enabledAtDocumentStart).2) = true.
Proof.
  split; [split; by vm_compute|].
  split.
  - destruct (refresh_effect (start backward twoItems)) as [Hret _].
    apply (Hret true). by vm_compute.
  - split; [|by vm_compute].
    destruct (refresh_effect enabledAtDocumentStart) as [_ Hraise].
    apply (Hraise TypeError). by vm_compute.
Defined.


Lemma range_direction_same_effect_witness :
  isCollapsed (selection rangeOverItems) = false
  ∧ ((_checkEnabled (mkState rangeOverItems (mkCommand backward false) [] [])).1
  = (_checkEnabled (mkState rangeOverItems (mkCommand forward true) [5] [])).1
  ∧ model (execute (mkState rangeOverItems (mkCommand backward false) [] [])).2
    = model (execute (mkState rangeOverItems (mkCommand forward true) [5] [])).2
  ∧ changedBlocks (execute (mkState rangeOverItems (mkCommand backward false) [] [])).2
    = changedBlocks (execute (mkState rangeOverItems (mkCommand forward true) [5] [])).2
  ∧ ∃ calls payload tail tail',
      trace (execute (mkState rangeOverItems (mkCommand backward false) [] [])).2 =
        [] ++ EnterChange :: calls ++ Fire "afterExecute" payload :: tail
      ∧ trace (execute (mkState rangeOverItems (mkCommand forward true) [5] [])).2 =
          [] ++ EnterChange :: calls ++ Fire "afterExecute" payload :: tail'
      ∧ Forall isHostCall calls
      ∧ (tail = [] ∨ tail = [LeaveChange])
      ∧ (tail' = [] ∨ tail' = [LeaveChange])).
Proof.
  split; [by vm_compute|].
  apply (range_direction_same_effect rangeOverItems (mkCommand backward false)
           (mkCommand forward true) [] [5] []).
  by vm_compute.
Defined.

(** The two directions over one range on the reference host: the same call,
    the same event and the same document; the backward command then raises
    at the closing of the change block, where its refresh finds the caret
    in the first block of the document, and the forward command returns. *)
Example range_direction_close :
  trace (execute (start backward rangeOverItems)).2
  = [EnterChange; CallDeleteContent TheDocumentSelection false;
     Fire "afterExecute" [0]]
  ∧ trace (execute (start forward rangeOverItems)).2
    = [EnterChange; CallDeleteContent TheDocumentSelection false;
       Fire "afterExecute" [0]; LeaveChange]
  ∧ (execute (start backward rangeOverItems)).1 = Throw TypeError
  ∧ (execute (start forward rangeOverItems)).1 = Ret tt.
Proof. repeat split; by vm_compute. Qed.

Lemma execute_same_indent_witness :
  ((_shouldMergeOnBlocksContentLevel (start forward paragraphBeforeItem)).1 = Ret true
   ∧ (_getBoundaryElements (selection (model (start forward paragraphBeforeItem)))
        true (start forward paragraphBeforeItem)).1
     = Ret (mkBoundaryElements (Some 0) (Some 1))
   ∧ getListIndent (model (start forward paragraphBeforeItem)) 0 = None
   ∧ js_or_zero (getListIndent (model (start forward paragraphBeforeItem)) 0) = 0%Z
   ∧ getListIndent (model (start forward paragraphBeforeItem)) 1 = Some 0%Z)
  ∧ ∀ blocks n e,
      CallIndentBlocks blocks n e
      ∉ drop (length (trace (start forward paragraphBeforeItem)))
             (trace (execute (start forward paragraphBeforeItem)).2).
Proof.
  split; [repeat split; by vm_compute|].
  apply (execute_same_indent (start forward paragraphBeforeItem) true
           (mkBoundaryElements (Some 0) (Some 1)) 0 1 0%Z); by vm_compute.
Defined.

Lemma execute_missing_last_indent_witness :
  ((_shouldMergeOnBlocksContentLevel (start forward itemThenParagraph)).1 = Ret true
   ∧ (_getBoundaryElements (selection (model (start forward itemThenParagraph)))
        true (start forward itemThenParagraph)).1
     = Ret (mkBoundaryElements (Some 0) (Some 1))
   ∧ getListIndent (model (start forward itemThenParagraph)) 1 = None)
  ∧ ∃ rest,
      trace (execute (start forward itemThenParagraph)).2 =
        trace (start forward itemThenParagraph) ++ EnterChange
          :: CallIndentBlocks
               (1 :: getNestedListBlocks (model (start forward itemThenParagraph)) 1)
               NaN false
          :: rest.
Proof.
  split; [repeat split; by vm_compute|].
  apply (execute_missing_last_indent (start forward itemThenParagraph) true
           (mkBoundaryElements (Some 0) (Some 1)) 0 1); by vm_compute.
Defined.

Lemma forward_at_last_block_witness :
  (isCollapsed (selection (model (start forward twoItems))) = true
   ∧ _direction (this (start forward twoItems)) = forward
   ∧ nextSibling (model (start forward twoItems))
       (parent (getFirstPosition (selection (model (start forward twoItems)))))
     = None)
  ∧ _checkEnabled (start forward twoItems) = (Ret false, start forward twoItems)
  ∧ (execute (start forward twoItems)).1 = Throw TypeError
  ∧ model (execute (start forward twoItems)).2 = model (start forward twoItems)
  ∧ trace (execute (start forward twoItems)).2
    = trace (start forward twoItems) ++ [EnterChange].
Proof.
  split; [repeat split; by vm_compute|].
  apply (forward_at_last_block (start forward twoItems)); by vm_compute.
Defined.

Lemma backward_at_first_block_witness :
  (isCollapsed (selection (model enabledAtDocumentStart)) = true
   ∧ _direction (this enabledAtDocumentStart) = backward
   ∧ previousSibling (model enabledAtDocumentStart)
       (parent (getFirstPosition (selection (model enabledAtDocumentStart))))
     = None
   ∧ schema_isObject_null ≠ Ret true)
  ∧ refresh enabledAtDocumentStart = (Throw TypeError, enabledAtDocumentStart)
  ∧ (execute enabledAtDocumentStart).1 = Throw TypeError
  ∧ model (execute enabledAtDocumentStart).2 = model enabledAtDocumentStart
  ∧ trace (execute enabledAtDocumentStart).2
    = trace enabledAtDocumentStart ++ [EnterChange].
Proof.
  split; [repeat split; by vm_compute|].
  apply (backward_at_first_block enabledAtDocumentStart); by vm_compute.
Defined.

Lemma execute_changed_blocks_witness :
  ((_shouldMergeOnBlocksContentLevel (start backward emptyThenNested)).1 = Ret true
   ∧ (_getBoundaryElements (selection (model (start backward emptyThenNested)))
        true (start backward emptyThenNested)).1
     = Ret (mkBoundaryElements (Some 0) (Some 1)))
  ∧ let fi := js_or_zero (getListIndent (model (start backward emptyThenNested)) 0) in
    let li := getListIndent (model (start backward emptyThenNested)) 1 in
    let m1 := modelAfterIndent (model (start backward emptyThenNested)) 1 fi li in
    changedBlocks (execute (start backward emptyThenNested)).2 =
      (if js_neq fi li
       then (indentBlocks (model (start backward emptyThenNested))
               (1 :: getNestedListBlocks (model (start backward emptyThenNested)) 1)
               (js_sub fi li) (js_lt fi li)).2
       else [])
      ++ (if true then
            lastElementAfterDelete m1 0 1
            :: match absorbed m1 0 1
                       (getListItemId (model (start backward emptyThenNested)) 1) with
               | Some sibling =>
                   (mergeListItemBefore (modelAfterDelete m1 0 1) sibling
                      (lastElementAfterDelete m1 0 1)).2
               | None => []
               end
          else (mergeListItemBefore m1 1 0).2).
Proof.
  split; [split; by vm_compute|].
  apply (execute_changed_blocks (start backward emptyThenNested) true
           (mkBoundaryElements (Some 0) (Some 1)) 0 1); by vm_compute.
Defined.

Lemma enabled_absorbs_list_item_witness :
  ((_checkEnabled (start forward beforeTwoBlockItem)).1 = Ret true
   ∧ (_shouldMergeOnBlocksContentLevel (start forward beforeTwoBlockItem)).1 = Ret true
   ∧ (_getBoundaryElements (selection (model (start forward beforeTwoBlockItem)))
        true (start forward beforeTwoBlockItem)).1
     = Ret (mkBoundaryElements (Some 0) (Some 1))
   ∧ CallMergeListItemBefore 2
       (lastElementAfterDelete
          (modelAfterIndent (model (start forward beforeTwoBlockItem)) 1
             (js_or_zero (getListIndent (model (start forward beforeTwoBlockItem)) 0))
             (getListIndent (model (start forward beforeTwoBlockItem)) 1)) 0 1)
     ∈ drop (length (trace (start forward beforeTwoBlockItem)))
            (trace (execute (start forward beforeTwoBlockItem)).2))
  ∧ isListItemBlock
      (modelAfterDelete
         (modelAfterIndent (model (start forward beforeTwoBlockItem)) 1
            (js_or_zero (getListIndent (model (start forward beforeTwoBlockItem)) 0))
            (getListIndent (model (start forward beforeTwoBlockItem)) 1)) 0 1)
      (Some 2) = true
  ∧ getListItemId
      (modelAfterDelete
         (modelAfterIndent (model (start forward beforeTwoBlockItem)) 1
            (js_or_zero (getListIndent (model (start forward beforeTwoBlockItem)) 0))
            (getListIndent (model (start forward beforeTwoBlockItem)) 1)) 0 1) 2
    = getListItemId (model (start forward beforeTwoBlockItem)) 1.
Proof.
  assert (CallMergeListItemBefore 2
            (lastElementAfterDelete
               (modelAfterIndent (model (start forward beforeTwoBlockItem)) 1
                  (js_or_zero
                     (getListIndent (model (start forward beforeTwoBlockItem)) 0))
                  (getListIndent (model (start forward beforeTwoBlockItem)) 1)) 0 1)
          ∈ drop (length (trace (start forward beforeTwoBlockItem)))
                 (trace (execute (start forward beforeTwoBlockItem)).2)) as Hin.
  { apply (bool_decide_unpack _). by vm_compute. }
  split; [repeat split; try (by vm_compute); exact Hin|].
  apply (enabled_absorbs_list_item (start forward beforeTwoBlockItem)
           (mkBoundaryElements (Some 0) (Some 1)) 0 1 2);
    try (by vm_compute); exact Hin.
Defined.
